(** * gobind's minimum-module-compatibility importer (cmd/gobind/mmc_importer.go)

    A shallow embedding of [isVNPart], [removeMajorVersionFromPath] and
    [mmcImporter.Import], together with the parts of Go's standard library
    they run on ([strings], [unicode/utf8], [strconv], [fmt]'s scanner), and
    the properties of the path stripper and of the resolver. *)

From Stdlib Require Import ZArith List Bool Lia.
From Stdlib Require Import Strings.Ascii Strings.String.
Import ListNotations.

Open Scope string_scope.
Open Scope list_scope.
Open Scope Z_scope.

(** ** Go values *)

(** A Go [string] is a sequence of bytes: Rocq's [string] of 8-bit [ascii]. *)
Definition byte := ascii.
Definition rune := Z.

Definition byteval (c : byte) : Z := Z.of_N (N_of_ascii c).

(** [len(s)] *)
Definition len (s : string) : Z := Z.of_nat (String.length s).

(** Go's [int] (64 bits on the hosts gobind runs on) and [int64]: the value
    an arithmetic result wraps to. *)
Definition maxInt : Z := 2 ^ 63 - 1.
Definition wrap_int64 (z : Z) : Z := (z + 2 ^ 63) mod 2 ^ 64 - 2 ^ 63.
Definition wrap_uint64 (z : Z) : Z := z mod 2 ^ 64.

(** Go [error] values (nil is [None] where a function returns one). *)
Definition error := string.

Inductive result (A : Type) : Type :=
| Ok (a : A)
| Err (e : error).
Arguments Ok {A} a.
Arguments Err {A} e.

Definition bind {A B : Type} (m : result A) (k : A -> result B) : result B :=
  match m with
  | Ok a => k a
  | Err e => Err e
  end.

Notation "x <- m ;; k" := (bind m (fun x => k))
  (at level 61, m at next level, right associativity).
Notation "' p <- m ;; k" := (bind m (fun x => let p := x in k))
  (at level 61, p pattern, m at next level, right associativity).

Definition is_ok {A : Type} (m : result A) : bool :=
  match m with Ok _ => true | Err _ => false end.

(** ** package strings *)
Module strings.

(** [strings.Split(s, sep)] for a one-byte separator: the substrings
    between the occurrences of [sep], one more than there are separators. *)
Fixpoint Split (s : string) (sep : byte) : list string :=
  match s with
  | EmptyString => [EmptyString]
  | String c t =>
      if Ascii.eqb c sep then EmptyString :: Split t sep
      else match Split t sep with
           | p :: ps => String c p :: ps
           | [] => [String c EmptyString]
           end
  end.

(** [strings.Join(elems, sep)]: the empty string for no element. *)
Fixpoint Join (elems : list string) (sep : string) : string :=
  match elems with
  | [] => EmptyString
  | [e] => e
  | e :: rest => (e ++ sep ++ Join rest sep)%string
  end.

(** [strings.HasSuffix(s, suffix)] for a one-byte suffix. *)
Fixpoint HasSuffix (s : string) (suffix : byte) : bool :=
  match s with
  | EmptyString => false
  | String c EmptyString => Ascii.eqb c suffix
  | String _ t => HasSuffix t suffix
  end.

End strings.

(** ** package unicode/utf8 *)
Module utf8.

Definition RuneError : rune := 0xFFFD.
Definition RuneSelf : Z := 0x80.

Definition maskx : Z := 0x3F.
Definition mask2 : Z := 0x1F.
Definition mask3 : Z := 0x0F.
Definition mask4 : Z := 0x07.

Definition locb : Z := 0x80.
Definition hicb : Z := 0xBF.

Definition xx : Z := 0xF1.
Definition as_ : Z := 0xF0.
Definition s1 : Z := 0x02.
Definition s2 : Z := 0x13.
Definition s3 : Z := 0x03.
Definition s4 : Z := 0x23.
Definition s5 : Z := 0x34.
Definition s6 : Z := 0x04.
Definition s7 : Z := 0x44.

(** The table [first]: information about the first byte of an encoding. *)
Definition first (b : Z) : Z :=
  if b <? 0x80 then as_
  else if b <? 0xC2 then xx
  else if b <? 0xE0 then s1
  else if b =? 0xE0 then s2
  else if b <? 0xED then s3
  else if b =? 0xED then s4
  else if b <? 0xF0 then s3
  else if b =? 0xF0 then s5
  else if b <? 0xF4 then s6
  else if b =? 0xF4 then s7
  else xx.

(** The table [acceptRanges]: allowed range of the second byte. *)
Definition acceptRanges (i : Z) : Z * Z :=
  if i =? 0 then (locb, hicb)
  else if i =? 1 then (0xA0, hicb)
  else if i =? 2 then (locb, 0x9F)
  else if i =? 3 then (0x90, hicb)
  else if i =? 4 then (locb, 0x8F)
  else (0, 0).

(** [s[i]], read only where [i < len(s)]. *)
Definition at_ (s : string) (i : nat) : Z :=
  match String.get i s with
  | Some c => byteval c
  | None => 0
  end.

(** [utf8.DecodeRuneInString(s)]: the first rune of [s] and its width in
    bytes; an invalid or short encoding is [(RuneError, 1)]. *)
Definition DecodeRuneInString (s : string) : rune * Z :=
  let n := len s in
  if n <? 1 then (RuneError, 0)
  else
    let s0 := at_ s 0 in
    let x := first s0 in
    if x >=? as_ then
      (* mask is all ones for xx and zero for as *)
      if Z.testbit x 0 then (RuneError, 1) else (s0, 1)
    else
      let sz := Z.land x 7 in
      let accept := acceptRanges (Z.shiftr x 4) in
      if n <? sz then (RuneError, 1)
      else
        let s1 := at_ s 1 in
        if (s1 <? fst accept) || (snd accept <? s1) then (RuneError, 1)
        else if sz <=? 2 then
          (Z.lor (Z.shiftl (Z.land s0 mask2) 6) (Z.land s1 maskx), 2)
        else
          let s2 := at_ s 2 in
          if (s2 <? locb) || (hicb <? s2) then (RuneError, 1)
          else if sz <=? 3 then
            (Z.lor (Z.lor (Z.shiftl (Z.land s0 mask3) 12)
                          (Z.shiftl (Z.land s1 maskx) 6))
                   (Z.land s2 maskx), 3)
          else
            let s3 := at_ s 3 in
            if (s3 <? locb) || (hicb <? s3) then (RuneError, 1)
            else
              (Z.lor (Z.lor (Z.lor (Z.shiftl (Z.land s0 mask4) 18)
                                   (Z.shiftl (Z.land s1 maskx) 12))
                            (Z.shiftl (Z.land s2 maskx) 6))
                     (Z.land s3 maskx), 4).

End utf8.

(** ** strings.Reader as a rune source *)

(** The runes that successive [ReadRune] calls on [strings.NewReader(s)]
    yield: each call decodes at the current offset and advances by the
    width.  [skip] counts the bytes of the current rune still to pass. *)
Fixpoint runesFrom (skip : nat) (s : string) : list rune :=
  match s with
  | EmptyString => []
  | String _ t =>
      match skip with
      | S k => runesFrom k t
      | O =>
          let '(r, size) := utf8.DecodeRuneInString s in
          r :: runesFrom (Z.to_nat size - 1) t
      end
  end.

Definition NewReader (s : string) : list rune := runesFrom 0 s.

(** ** package strconv *)
Module strconv.

Definition maxUint64 : Z := 2 ^ 64 - 1.

(** The digit loop of [strconv.ParseUint(s, 10, 64)] on the bytes of [s],
    from the accumulated value [n]: a byte that is no decimal digit is a
    syntax error, a value that leaves 64 bits is a range error. *)
Fixpoint ParseUint_loop (s : list Z) (n : Z) : result Z :=
  match s with
  | [] => Ok n
  | c :: rest =>
      if (48 <=? c) && (c <=? 57) then
        let d := c - 48 in
        let cutoff := maxUint64 / 10 + 1 in
        let maxVal := maxUint64 in
        if n >=? cutoff then Err "value out of range"
        else
          let n := wrap_uint64 (n * 10) in
          let n1 := wrap_uint64 (n + d) in
          if (n1 <? n) || (n1 >? maxVal) then Err "value out of range"
          else ParseUint_loop rest n1
      else Err "invalid syntax"
  end.

Definition ParseUint (s : list Z) : result Z :=
  match s with
  | [] => Err "invalid syntax"
  | _ => ParseUint_loop s 0
  end.

(** [strconv.ParseInt(s, 10, 64)]: an optional sign, then [ParseUint],
    then the range of [int64]. *)
Definition ParseInt (s : list Z) : result Z :=
  match s with
  | [] => Err "invalid syntax"
  | s0 :: t =>
      let '(neg, s') :=
        if s0 =? 43 then (false, t)
        else if s0 =? 45 then (true, t)
        else (false, s) in
      un <- ParseUint s' ;;
      let cutoff := 2 ^ 63 in
      if negb neg && (un >=? cutoff) then Err "value out of range"
      else if neg && (un >? cutoff) then Err "value out of range"
      else Ok (if neg then - un else un)
  end.

End strconv.

(** ** package fmt: the scanner behind Fscanf *)
Module fmt.

Definition eof : rune := -1.
Definition hugeWid : Z := Z.shiftl 1 30.
Definition intBits : Z := 64.

Definition decimalDigits : list rune := [48; 49; 50; 51; 52; 53; 54; 55; 56; 57].
Definition sign : list rune := [43; 45].

(** The table [space] of the scanner: ranges of white-space runes. *)
Definition space : list (Z * Z) :=
  [ (0x0009, 0x000d); (0x0020, 0x0020); (0x0085, 0x0085); (0x00a0, 0x00a0);
    (0x1680, 0x1680); (0x2000, 0x200a); (0x2028, 0x2029); (0x202f, 0x202f);
    (0x205f, 0x205f); (0x3000, 0x3000) ].

Fixpoint inRanges (rx : Z) (ranges : list (Z * Z)) : bool :=
  match ranges with
  | [] => false
  | (lo, hi) :: rest =>
      if rx <? lo then false
      else if rx <=? hi then true
      else inRanges rx rest
  end.

Definition isSpace (r : rune) : bool :=
  if r >=? Z.shiftl 1 16 then false else inRanges r space.

Definition indexRune (s : list rune) (r : rune) : bool :=
  existsb (Z.eqb r) s.

(** The scan state [ss]: the runes still to read from the reader, the
    token buffer [buf] and [count], the number of runes consumed.  The
    limits [argLimit], [limit] and [maxWid] all are [hugeWid] for a format
    without widths; [nlIsSpace] is false for Fscanf.  The flag [atEOF] only
    repeats what an exhausted [strings.Reader] answers by itself. *)
Record ss : Type := mkss {
  rs : list rune;
  buf : list rune;
  count : Z;
  argLimit : Z;
  nlIsSpace : bool
}.

Definition newScanState (r : list rune) : ss :=
  {| rs := r; buf := []; count := 0; argLimit := hugeWid; nlIsSpace := false |}.

Definition advanced (s : ss) (t : list rune) : ss :=
  {| rs := t; buf := buf s; count := count s + 1;
     argLimit := argLimit s; nlIsSpace := nlIsSpace s |}.

Definition clearBuf (s : ss) : ss :=
  {| rs := rs s; buf := []; count := count s;
     argLimit := argLimit s; nlIsSpace := nlIsSpace s |}.

(** [s.argLimit = s.limit; if f := s.count + s.maxWid; f < s.argLimit
    { s.argLimit = f }] with [limit] and [maxWid] at [hugeWid]. *)
Definition setArgLimit (s : ss) : ss :=
  let f := count s + hugeWid in
  {| rs := rs s; buf := buf s; count := count s;
     argLimit := if f <? hugeWid then f else hugeWid;
     nlIsSpace := nlIsSpace s |}.

Definition writeRune (s : ss) (r : rune) : ss :=
  {| rs := rs s; buf := buf s ++ [r]; count := count s;
     argLimit := argLimit s; nlIsSpace := nlIsSpace s |}.

(** [s.getRune()]: the next rune and the state after it, [eof] with the
    state unchanged at the end of the input or at the limit.  Not reading
    on stands for the [UnreadRune] that follows a read in the source. *)
Definition getRune (s : ss) : rune * ss :=
  if count s >=? argLimit s then (eof, s)
  else match rs s with
       | [] => (eof, s)
       | r :: t => (r, advanced s t)
       end.

(** [s.mustReadRune()] *)
Definition mustReadRune (s : ss) : result (rune * ss) :=
  let '(r, s') := getRune s in
  if r =? eof then Err "unexpected EOF" else Ok (r, s').

(** [s.peek(ok)] *)
Definition peek (ok : list rune) (s : ss) : bool :=
  let '(r, _) := getRune s in indexRune ok r.

(** [s.notEOF()] *)
Definition notEOF (s : ss) : result ss :=
  let '(r, _) := getRune s in
  if r =? eof then Err "EOF" else Ok s.

(** [s.SkipSpace()]: the loop runs along the input [l] of the state. *)
Fixpoint SkipSpace_loop (l : list rune) (s : ss) : result ss :=
  if count s >=? argLimit s then Ok s
  else match l with
       | [] => Ok s
       | r :: t =>
           let s' := advanced s t in
           if (r =? 13) && peek [10] s' then SkipSpace_loop t s'
           else if r =? 10 then
             if nlIsSpace s then SkipSpace_loop t s'
             else Err "unexpected newline"
           else if negb (isSpace r) then Ok s
           else SkipSpace_loop t s'
       end.

Definition SkipSpace (s : ss) : result ss := SkipSpace_loop (rs s) s.

(** [s.accept(ok)], that is [s.consume(ok, true)]. *)
Definition accept (ok : list rune) (s : ss) : bool * ss :=
  let '(r, s') := getRune s in
  if r =? eof then (false, s)
  else if indexRune ok r then (true, writeRune s' r)
  else (false, s).

(** The loop [for s.accept(digits) {}] of [scanNumber]. *)
Fixpoint accept_loop (digits : list rune) (l : list rune) (s : ss) : ss :=
  if count s >=? argLimit s then s
  else match l with
       | [] => s
       | r :: t =>
           if indexRune digits r
           then accept_loop digits t (writeRune (advanced s t) r)
           else s
       end.

(** [s.scanNumber(digits, false)]: the token and the state after it. *)
Definition scanNumber (digits : list rune) (s : ss) : result (list rune * ss) :=
  s <- notEOF s ;;
  let '(ok, s) := accept digits s in
  if negb ok then Err "expected integer"
  else
    let s := accept_loop digits (rs s) s in
    Ok (buf s, s).

(** [s.scanInt('d', bitSize)] *)
Definition scanInt (bitSize : Z) (s : ss) : result (Z * ss) :=
  s <- SkipSpace s ;;
  s <- notEOF s ;;
  let '(_, s) := accept sign s in
  '(tok, s) <- scanNumber decimalDigits s ;;
  i <- strconv.ParseInt tok ;;
  let n := bitSize in
  let x := Z.shiftr (wrap_int64 (Z.shiftl i (64 - n))) (64 - n) in
  if negb (x =? i) then Err "integer overflow on token"
  else Ok (x, s).

(** [s.advance(format)] on the literal rune [fmtc] of the format. *)
Definition advance_literal (fmtc : rune) (s : ss) : result ss :=
  '(inputc, s') <- mustReadRune s ;;
  if negb (fmtc =? inputc) then Err "input does not match format"
  else Ok s'.

(** [fmt.Fscanf(r, "v%d", &v)]: [doScanf] on this format with one [*int]
    operand.  The literal is matched by [advance]; the verb skips space
    (it is not 'c'), sets the limit of the operand, clears the buffer in
    [scanOne] and scans an [int].
    What the input holds after the number is not looked at. *)
Definition Fscanf_v_int (r : list rune) : result Z :=
  let s := newScanState r in
  s <- advance_literal 118 s ;;
  s <- SkipSpace s ;;
  let s := setArgLimit s in
  let s := clearBuf s in
  '(v, _) <- scanInt intBits s ;;
  Ok v.

End fmt.

(** ** cmd/gobind/mmc_importer.go *)

Definition quote : byte := "034"%char.
Definition slash : byte := "/"%char.

(** [isVNPart(s)]: does [Fscanf] of ["v%d"] on [s] give no error? *)
Definition isVNPart (s : string) : bool :=
  is_ok (fmt.Fscanf_v_int (NewReader s)).

(** The [range parts] loop of [removeMajorVersionFromPath], at index [i],
    with the loop variables [nonVN] and [endQuote]. *)
Fixpoint range_parts (lenParts : Z) (i : Z) (ps : list string)
    (nonVN : list string) (endQuote : bool) : list string * bool :=
  match ps with
  | [] => (nonVN, endQuote)
  | p :: rest =>
      if isVNPart p
      then range_parts lenParts (i + 1) rest nonVN
             ((i =? lenParts - 1) && strings.HasSuffix p quote)
      else range_parts lenParts (i + 1) rest (nonVN ++ [p]) endQuote
  end.

Definition removeMajorVersionFromPath (pkgPath : string) : string * Z :=
  let parts := strings.Split pkgPath slash in
  let '(nonVN, endQuote) :=
    range_parts (Z.of_nat (List.length parts)) 0 parts [] false in
  let r := strings.Join nonVN "/" in
  let r := if endQuote then (r ++ String quote EmptyString)%string else r in
  (r, wrap_int64 (len pkgPath - len r)).

(** ** The resolver: mmcImporter.Import *)

(** [build.Context], of which [Import] reads GOPATH itself. *)
Record Context : Type := { GOPATH : string; BuildTags : list string }.

(** An importer made by [importer.ForCompiler]: each call makes a new one,
    told apart by its number. *)
Definition Importer := nat.

Record mmcImporter : Type := {
  Ctx : Context;
  stdImporter : option Importer
}.

(** A parsed file, [*ast.File]: the path literal of each import
    ([imp.Path.Value]) and the rest of the tree. *)
Record File (D : Type) : Type := { Imports : list string; Decls : D }.
Arguments Imports {D} f.
Arguments Decls {D} f.

(** What the [Files] method of [types.Checker] does with the importer of its
    configuration: it asks for the package of an import path and goes on
    with the answer, until it is done with the package object that
    [Config.Check] made with [NewPackage] and returns whatever the first
    error was.  [Config.Check] returns that package with this error. *)
Inductive Checking (P : Type) : Type :=
| Done (pkg : P) (err : option error)
| AskImport (path : string) (k : option P * option error -> Checking P).
Arguments Done {P} pkg err.
Arguments AskImport {P} path k.

(** The collaborators of the resolver, outside this repository: the
    interface the resolver is written against. *)
Class Env : Type := {
  Package : Type;
  Syntax : Type;
  (** [Import] of the importer for compiler "source" *)
  std_Import : string -> option Package * option error;
  (** [filepath.Join] *)
  filepath_Join : list string -> string;
  (** [ctx.Import(packagePath, srcDir, 0)]: the [GoFiles] of the package *)
  ctx_Import : Context -> string -> string -> result (list string);
  (** [ioutil.ReadFile] *)
  ReadFile : string -> result string;
  (** [parser.ParseFile] on a file name and its source *)
  ParseFile : string -> string -> result (File Syntax);
  (** the order in which [range] visits a map, which Go leaves open *)
  range_order : list (string * string) -> list (string * string);
  (** the checker on the files of a package *)
  check_Files : string -> list (File Syntax) -> Checking Package
}.

(** The calls made to the collaborators and to the path stripper. *)
Inductive Event : Type :=
| EvForCompiler (h : Importer)
| EvStdImport (h : Importer) (path : string)
| EvCtxImport (path srcDir : string)
| EvReadFile (fpath : string)
| EvParseFile (fpath : string)
| EvRewrite (value : string)
| EvCheck (path : string).

(** The resolver instance, which [Import] updates through its pointer
    receiver and hands to the checker, and the calls made so far, the
    latest first. *)
Record State : Type := { self : mmcImporter; trace : list Event }.

Definition log (e : Event) (st : State) : State :=
  {| self := self st; trace := e :: trace st |}.

Definition is_ForCompiler (e : Event) : bool :=
  match e with EvForCompiler _ => true | _ => false end.

(** How many importers have been made. *)
Definition created (tr : list Event) : nat :=
  List.length (filter is_ForCompiler tr).

(** [if imp.stdImporter == nil { imp.stdImporter = importer.ForCompiler(...) }] *)
Definition ensure_stdImporter (st : State) : Importer * State :=
  match stdImporter (self st) with
  | Some h => (h, st)
  | None =>
      let h := created (trace st) in
      (h, {| self := {| Ctx := Ctx (self st); stdImporter := Some h |};
             trace := EvForCompiler h :: trace st |})
  end.

(** [fileSrcs[fp] = d] on a map kept as a list of entries. *)
Fixpoint map_store (m : list (string * string)) (k v : string)
    : list (string * string) :=
  match m with
  | [] => [(k, v)]
  | (k', v') :: rest =>
      if String.eqb k' k then (k, v) :: rest
      else (k', v') :: map_store rest k v
  end.

Section Resolver.

Context {E : Env}.

(** What [Import] returns: a pointer to a [types.Package] and an [error]. *)
Definition Imported : Type := option Package * option error.

(** [loadFileContents(fpath...)] *)
Fixpoint loadFileContents (fpath : list string)
    (fileSrcs : list (string * string)) (st : State)
    : result (list (string * string)) * State :=
  match fpath with
  | [] => (Ok fileSrcs, st)
  | fp :: rest =>
      let st := log (EvReadFile fp) st in
      match ReadFile fp with
      | Err err => (Err err, st)
      | Ok d => loadFileContents rest (map_store fileSrcs fp d) st
      end
  end.

(** [loadPackageSources(ctx, packagePath, srcDir)] *)
Definition loadPackageSources (ctx : Context) (packagePath srcDir : string)
    (st : State) : result (list (string * string)) * State :=
  let st := log (EvCtxImport packagePath srcDir) st in
  match ctx_Import ctx packagePath srcDir with
  | Err err => (Err err, st)
  | Ok goFiles =>
      let filePaths := map (fun f => filepath_Join [srcDir; f]) goFiles in
      loadFileContents filePaths [] st
  end.

(** The loop over [astf.Imports]: each path literal is replaced by the
    stripped one. *)
Fixpoint rewrite_imports (imports : list string) (st : State)
    : list string * State :=
  match imports with
  | [] => ([], st)
  | v :: rest =>
      let st := log (EvRewrite v) st in
      let '(r, _) := removeMajorVersionFromPath v in
      let '(rest', st) := rewrite_imports rest st in
      (r :: rest', st)
  end.

(** The loop over [fileSrcs]: parse, rewrite the imports, append. *)
Fixpoint parse_files (fileSrcs : list (string * string))
    (astFiles : list (File Syntax)) (st : State)
    : result (list (File Syntax)) * State :=
  match fileSrcs with
  | [] => (Ok astFiles, st)
  | (fpath, src) :: rest =>
      let st := log (EvParseFile fpath) st in
      match ParseFile fpath src with
      | Err err => (Err err, st)
      | Ok astf =>
          let '(imports, st) := rewrite_imports (Imports astf) st in
          let astf := {| Imports := imports; Decls := Decls astf |} in
          parse_files rest (astFiles ++ [astf]) st
      end
  end.

(** [conf.Check] with the resolver as its importer: every import the
    checker asks for goes through [importer]; no answer ([None]) means the
    chain of nested imports was cut off. *)
Fixpoint run_check (importer : string -> State -> option Imported * State)
    (c : Checking Package) (st : State) : option Imported * State :=
  match c with
  | Done pkg err => (Some (Some pkg, err), st)
  | AskImport path k =>
      match importer path st with
      | (None, st) => (None, st)
      | (Some r, st) => run_check importer (k r) st
      end
  end.

(** The body of [imp.Import(path)] over [importer], which stands for
    [imp] as the [Importer] of the checker's configuration. *)
Definition Import_with
    (importer : string -> State -> option Imported * State)
    (path : string) (st : State) : option Imported * State :=
  let '(h, st) := ensure_stdImporter st in
  let st := log (EvStdImport h path) st in
  (* try the std importer first *)
  match std_Import path with
  | (pkg, None) => (Some (pkg, None), st)
  | (_, Some _) =>
      let pkgSrcPath :=
        filepath_Join [GOPATH (Ctx (self st)); "src"; path] in
      match loadPackageSources (Ctx (self st)) path pkgSrcPath st with
      | (Err err, st) => (Some (None, Some err), st)
      | (Ok fileSrcs, st) =>
          match parse_files (range_order fileSrcs) [] st with
          | (Err err, st) => (Some (None, Some err), st)
          | (Ok astFiles, st) =>
              let st := log (EvCheck path) st in
              run_check importer (check_Files path astFiles) st
          end
      end
  end.

(** [imp.Import(path)].  The checker calls back into [Import] for the
    imports of the package; [depth] bounds how deep these calls nest, and
    the result is [None] where a chain of imports goes deeper (an import
    cycle makes the source recurse without end). *)
Fixpoint Import (depth : nat) (path : string) (st : State)
    : option Imported * State :=
  Import_with
    (match depth with
     | O => fun _ st => (None, st)
     | S d => Import d
     end)
    path st.

(** A client calling [Import] on one path after the other. *)
Fixpoint Import_each (depth : nat) (paths : list string) (st : State) : State :=
  match paths with
  | [] => st
  | p :: rest => Import_each depth rest (snd (Import depth p st))
  end.

End Resolver.

(** ** Notions used in the statements *)

Definition qs : string := String quote "".

Definition has_byte (c : byte) (s : string) : bool :=
  existsb (Ascii.eqb c) (list_ascii_of_string s).

Definition keep (p : string) : bool := negb (isVNPart p).

Definition quoted_end (p : string) : bool :=
  isVNPart p && strings.HasSuffix p quote.

(** The parts of the result, as a closed form of the source's loop. *)
Definition stripped (pkgPath : string) : string :=
  let parts := strings.Split pkgPath slash in
  (strings.Join (filter keep parts) "/"
   ++ (if quoted_end (List.last parts "") then String quote "" else ""))%string.

Definition slen (s : string) : nat := String.length s.

(** A part without a separator that is no version part. *)
Definition plain (p : string) : Prop :=
  has_byte slash p = false /\ isVNPart p = false.

(** ** The version-segment pattern of the specification *)

Definition isDigit (c : byte) : bool :=
  (48 <=? byteval c) && (byteval c <=? 57).

Fixpoint allDigits (s : string) : bool :=
  match s with
  | EmptyString => true
  | String c t => isDigit c && allDigits t
  end.

(** [s] without one trailing quote character, if it has one. *)
Fixpoint strip_trailing_quote (s : string) : string :=
  match s with
  | EmptyString => EmptyString
  | String c EmptyString => if Ascii.eqb c quote then EmptyString else s
  | String c t => String c (strip_trailing_quote t)
  end.

(** The predicate in the specification's words: after optionally stripping
    one trailing quote character, the remaining text is [v] followed by one
    or more decimal digits and nothing else. *)
Definition spec_IsVersionSegment (segment : string) : bool :=
  match strip_trailing_quote segment with
  | String c digits =>
      Ascii.eqb c "v"%char
      && negb (String.eqb digits EmptyString)
      && allDigits digits
  | EmptyString => false
  end.

(** ** Notions used in the proofs about the scanner *)

(** The body of [DecodeRuneInString] on the table entry [x] of the first
    byte, the length and the first four bytes. *)
Definition decode_tail (sz lo hi n s0 b1 b2 b3 : Z) : rune * Z :=
  if n <? sz then (utf8.RuneError, 1)
  else if (b1 <? lo) || (hi <? b1) then (utf8.RuneError, 1)
  else if sz <=? 2 then
    (Z.lor (Z.shiftl (Z.land s0 utf8.mask2) 6) (Z.land b1 utf8.maskx), 2)
  else if (b2 <? utf8.locb) || (utf8.hicb <? b2) then (utf8.RuneError, 1)
  else if sz <=? 3 then
    (Z.lor (Z.lor (Z.shiftl (Z.land s0 utf8.mask3) 12)
                  (Z.shiftl (Z.land b1 utf8.maskx) 6))
           (Z.land b2 utf8.maskx), 3)
  else if (b3 <? utf8.locb) || (utf8.hicb <? b3) then (utf8.RuneError, 1)
  else
    (Z.lor (Z.lor (Z.lor (Z.shiftl (Z.land s0 utf8.mask4) 18)
                         (Z.shiftl (Z.land b1 utf8.maskx) 12))
                  (Z.shiftl (Z.land b2 utf8.maskx) 6))
           (Z.land b3 utf8.maskx), 4).

(** The rune of a decimal digit. *)
Definition digit_rune (r : rune) : Prop := 48 <= r <= 57.

(** The scan state with a quote after its input. *)
Definition ext (s : fmt.ss) : fmt.ss :=
  {| fmt.rs := fmt.rs s ++ [34]; fmt.buf := fmt.buf s; fmt.count := fmt.count s;
     fmt.argLimit := fmt.argLimit s; fmt.nlIsSpace := fmt.nlIsSpace s |}.

Definition ext_result (m : result fmt.ss) : result fmt.ss :=
  match m with
  | Ok s => Ok (ext s)
  | Err e => Err e
  end.

(** ** Notions used in the statements about the resolver *)

Definition is_Check (e : Event) : bool :=
  match e with EvCheck _ => true | _ => false end.

(** The calls of the fallback before the check: loading, parsing and
    rewriting. *)
Definition is_source_event (e : Event) : bool :=
  match e with
  | EvCtxImport _ _ | EvReadFile _ | EvParseFile _ | EvRewrite _ => true
  | _ => false
  end.

(** A call of the fallback path. *)
Definition is_fallback (e : Event) : bool := is_source_event e || is_Check e.

Definition source (e : Event) : Prop := is_source_event e = true.

(** A call that makes no importer and asks no importer but [h]. *)
Definition uses (h : Importer) (e : Event) : Prop :=
  match e with
  | EvForCompiler _ => False
  | EvStdImport h' _ => h' = h
  | _ => True
  end.

(** A call that asks no importer but [h]. *)
Definition asks_only (h : Importer) (e : Event) : Prop :=
  match e with
  | EvStdImport h' _ => h' = h
  | _ => True
  end.

(** From [st] to [st'] the instance is left as it is and the calls made all
    satisfy [P]. *)
Definition steps (P : Event -> Prop) (st st' : State) : Prop :=
  self st' = self st
  /\ exists new, trace st' = new ++ trace st /\ Forall P new.

(** The importer the checker is given in [Import depth]. *)
Definition nested {E : Env} (depth : nat)
    : string -> State -> option (@Imported E) * State :=
  match depth with
  | O => fun _ st => (None, st)
  | S d => Import d
  end.

(** ** A sample world *)

(** A small world to run the resolver in: the baseline importer knows
    [fmt] only, one package cannot be found on disk, and the checker finds
    an error in one package and otherwise asks for [fmt]. *)
Definition sample_env : Env := {|
  Package := string;
  Syntax := unit;
  std_Import := fun p =>
    if String.eqb p "fmt" then (Some "fmt", None)
    else (None, Some "can't find import");
  filepath_Join := fun elem => strings.Join elem "/";
  ctx_Import := fun _ p _ =>
    if String.eqb p "example.com/missing" then Err "cannot find package"
    else Ok ["a.go"];
  ReadFile := fun _ => Ok "package a";
  ParseFile := fun _ _ =>
    Ok {| Imports := [(qs ++ "fmt" ++ qs)%string;
                      (qs ++ "example.com/lib/v2" ++ qs)%string];
          Decls := tt |};
  range_order := fun m => m;
  check_Files := fun p _ =>
    if String.eqb p "example.com/bad" then Done p (Some "undefined: x")
    else AskImport "fmt" (fun r => Done p (snd r))
|}.

Definition fresh_instance : State :=
  {| self := {| Ctx := {| GOPATH := "/go"; BuildTags := [] |};
                stdImporter := None |};
     trace := [] |}.

(** ** Notions used in the further statements *)

(** [fileSrcs[k]] with its presence flag, on a map kept as a list of
    entries. *)
Fixpoint map_lookup (m : list (string * string)) (k : string) : option string :=
  match m with
  | [] => None
  | (k', v) :: rest => if String.eqb k' k then Some v else map_lookup rest k
  end.

Definition is_ParseFile (e : Event) : bool :=
  match e with EvParseFile _ => true | _ => false end.

(** A path begins with the byte [c]. *)
Definition HasPrefix (s : string) (c : byte) : bool :=
  match s with
  | EmptyString => false
  | String c' _ => Ascii.eqb c' c
  end.

(** A parsed file with its import literals stripped. *)
Definition strip_imports {D : Type} (astf : File D) : File D :=
  {| Imports := map (fun v => fst (removeMajorVersionFromPath v)) (Imports astf);
     Decls := Decls astf |}.

(** A second small world: no baseline answer, three files per package, one
    unreadable file in one package and one unparsable file in another. *)
Definition broken_env : Env := {|
  Package := string;
  Syntax := unit;
  std_Import := fun _ => (None, Some "can't find import");
  filepath_Join := fun elem => strings.Join elem "/";
  ctx_Import := fun _ p _ =>
    if String.eqb p "example.com/missing" then Err "cannot find package"
    else Ok ["a.go"; "b.go"; "c.go"];
  ReadFile := fun fp =>
    if String.eqb fp "/go/src/example.com/unreadable/b.go"
    then Err "permission denied"
    else Ok fp;
  ParseFile := fun fpath _ =>
    if String.eqb fpath "/go/src/example.com/unparsable/b.go"
    then Err "expected 'package'"
    else Ok {| Imports := [(qs ++ "example.com/lib/v2" ++ qs)%string];
               Decls := tt |};
  range_order := fun m => m;
  check_Files := fun p _ => Done p None
|}.

(** A call that comes after the sources are loaded. *)
Definition is_after_load (e : Event) : bool :=
  match e with
  | EvParseFile _ | EvRewrite _ | EvCheck _ => true
  | _ => false
  end.

(** The number that decimal digits spell, continuing from [acc]. *)
Fixpoint decimal_value (acc : Z) (l : list rune) : Z :=
  match l with
  | [] => acc
  | c :: rest => decimal_value (acc * 10 + (c - 48)) rest
  end.

Definition digits_value (digits : string) : Z :=
  decimal_value 0 (map byteval (list_ascii_of_string digits)).

(** The scan state with the runes [sfx] after its input. *)
Definition extend (sfx : list rune) (s : fmt.ss) : fmt.ss :=
  {| fmt.rs := fmt.rs s ++ sfx; fmt.buf := fmt.buf s;
     fmt.count := fmt.count s; fmt.argLimit := fmt.argLimit s;
     fmt.nlIsSpace := fmt.nlIsSpace s |}.

(** The scan state has a rune to read. *)
Definition more (s : fmt.ss) : Prop :=
  fmt.count s < fmt.argLimit s /\ fmt.rs s <> [].

(** * Properties *)

(** ** Strings, Split and Join *)

Lemma slength_app (s t : string) :
  String.length (s ++ t) = (String.length s + String.length t)%nat.
Proof.
  induction s as [|c s IH]; simpl; [reflexivity | now rewrite IH].
Qed.

Lemma app_empty_r (s : string) : (s ++ "")%string = s.
Proof.
  induction s as [|c s IH]; simpl; [reflexivity | now rewrite IH].
Qed.

Lemma app_assoc_s (s t u : string) : ((s ++ t) ++ u = s ++ (t ++ u))%string.
Proof.
  induction s as [|c s IH]; simpl; [reflexivity | now rewrite IH].
Qed.

Lemma Split_not_nil (s : string) (sep : byte) : strings.Split s sep <> [].
Proof.
  destruct s as [|c s]; simpl; [discriminate|].
  destruct (Ascii.eqb c sep); [discriminate|].
  destruct (strings.Split s sep); discriminate.
Qed.

Lemma Join_cons (e : string) (rest : list string) (sep : string) :
  rest <> [] ->
  strings.Join (e :: rest) sep = (e ++ sep ++ strings.Join rest sep)%string.
Proof.
  destruct rest; [congruence | reflexivity].
Qed.

(** Joining what was split gives the string back. *)
Lemma Join_Split (s : string) :
  strings.Join (strings.Split s slash) "/" = s.
Proof.
  induction s as [|c s IH]; [reflexivity|].
  simpl strings.Split.
  destruct (Ascii.eqb c slash) eqn:Hc.
  - apply Ascii.eqb_eq in Hc. subst c.
    rewrite Join_cons by apply Split_not_nil.
    rewrite IH. reflexivity.
  - pose proof (Split_not_nil s slash) as Hne.
    destruct (strings.Split s slash) as [|p ps]; [congruence|].
    destruct ps as [|p' ps].
    + simpl in *. now rewrite IH.
    + change (String c (p ++ "/" ++ strings.Join (p' :: ps) "/") = String c s).
      f_equal. exact IH.
Qed.

(** No part of a split holds the separator. *)
Lemma Split_no_sep (s : string) (sep : byte) :
  Forall (fun p => has_byte sep p = false) (strings.Split s sep).
Proof.
  induction s as [|c s IH]; simpl.
  - constructor; [reflexivity | constructor].
  - destruct (Ascii.eqb c sep) eqn:Hc.
    + constructor; [reflexivity | exact IH].
    + destruct (strings.Split s sep) as [|p ps].
      * constructor; [|constructor].
        unfold has_byte. simpl. rewrite Ascii.eqb_sym, Hc. reflexivity.
      * inversion IH as [|? ? Hp Hps]; subst.
        constructor; [|exact Hps].
        unfold has_byte in *. simpl. rewrite Ascii.eqb_sym, Hc. exact Hp.
Qed.

Lemma Split_app_no_sep (p rest : string) :
  has_byte slash p = false ->
  strings.Split (p ++ String slash rest) slash = p :: strings.Split rest slash.
Proof.
  induction p as [|c p IH]; intros Hp.
  - simpl. reflexivity.
  - unfold has_byte in Hp. cbn [existsb list_ascii_of_string] in Hp.
    apply orb_false_elim in Hp. destruct Hp as [Hc Hp].
    change ((String c p ++ String slash rest)%string)
      with (String c (p ++ String slash rest)).
    cbn [strings.Split].
    rewrite Ascii.eqb_sym in Hc. rewrite Hc.
    rewrite IH by exact Hp. reflexivity.
Qed.

Lemma Split_one (p : string) :
  has_byte slash p = false -> strings.Split p slash = [p].
Proof.
  induction p as [|c p IH]; intros Hp; [reflexivity|].
  unfold has_byte in Hp. cbn [existsb list_ascii_of_string] in Hp.
  apply orb_false_elim in Hp. destruct Hp as [Hc Hp].
  cbn [strings.Split]. rewrite Ascii.eqb_sym in Hc. rewrite Hc.
  rewrite IH by exact Hp. reflexivity.
Qed.

(** Splitting what was joined gives the parts back, when none of them holds
    a separator. *)
Lemma Split_Join (l : list string) :
  l <> [] ->
  Forall (fun p => has_byte slash p = false) l ->
  strings.Split (strings.Join l "/") slash = l.
Proof.
  induction l as [|p l IH]; intros Hne Hall; [congruence|].
  inversion Hall as [|? ? Hp Hl]; subst.
  destruct l as [|p' l].
  - simpl. now apply Split_one.
  - rewrite Join_cons by discriminate.
    change (("/" ++ strings.Join (p' :: l) "/")%string)
      with (String slash (strings.Join (p' :: l) "/")).
    rewrite Split_app_no_sep by exact Hp.
    rewrite IH; [reflexivity | discriminate | exact Hl].
Qed.

(** ** The loop of removeMajorVersionFromPath *)

Lemma existsb_false_last {A : Type} (f : A -> bool) (l : list A) (d : A) :
  l <> [] -> existsb f l = false -> f (List.last l d) = false.
Proof.
  induction l as [|a l IH]; intros Hne Hex; [congruence|].
  simpl in Hex. apply orb_false_elim in Hex. destruct Hex as [Ha Hl].
  destruct l as [|b l]; [exact Ha|].
  change (List.last (a :: b :: l) d) with (List.last (b :: l) d).
  apply IH; [discriminate | exact Hl].
Qed.

(** The loop keeps the parts that are no version part, in their order, and
    leaves [endQuote] set exactly when the last part is a version part that
    ends in a quote. *)
Lemma range_parts_spec (ps : list string) :
  forall (n i : Z) (nonVN : list string) (endQuote : bool),
    i + Z.of_nat (List.length ps) = n ->
    range_parts n i ps nonVN endQuote =
      (nonVN ++ filter keep ps,
       if existsb isVNPart ps then quoted_end (List.last ps "") else endQuote).
Proof.
  induction ps as [|p rest IH]; intros n i nonVN endQuote Hn.
  - simpl. now rewrite app_nil_r.
  - cbn [range_parts filter existsb]. unfold keep at 1.
    destruct (isVNPart p) eqn:Hp; cbn [negb orb].
    + rewrite (IH n (i + 1)) by (cbn [List.length] in Hn; lia).
      f_equal.
      destruct rest as [|p' rest'].
      * cbn [existsb List.last]. unfold quoted_end. rewrite Hp.
        cbn [List.length] in Hn.
        replace (i =? n - 1) with true by (symmetry; apply Z.eqb_eq; lia).
        reflexivity.
      * change (List.last (p :: p' :: rest') "")
          with (List.last (p' :: rest') "").
        destruct (existsb isVNPart (p' :: rest')) eqn:Hex; [reflexivity|].
        replace (i =? n - 1) with false
          by (symmetry; apply Z.eqb_neq; cbn [List.length] in Hn; lia).
        unfold quoted_end.
        rewrite (existsb_false_last isVNPart (p' :: rest') "")
          by (trivial; discriminate).
        reflexivity.
    + rewrite (IH n (i + 1)) by (cbn [List.length] in Hn; lia).
      rewrite <- app_assoc. cbn [app]. f_equal.
      destruct rest as [|p' rest'].
      * cbn [existsb]. reflexivity.
      * reflexivity.
Qed.

Lemma removeMajorVersionFromPath_eq (pkgPath : string) :
  removeMajorVersionFromPath pkgPath =
    (stripped pkgPath, wrap_int64 (len pkgPath - len (stripped pkgPath))).
Proof.
  unfold removeMajorVersionFromPath, stripped.
  rewrite (range_parts_spec _ (Z.of_nat (List.length (strings.Split pkgPath slash))))
    by lia.
  cbn [app].
  set (parts := strings.Split pkgPath slash).
  destruct (existsb isVNPart parts) eqn:Hex.
  - destruct (quoted_end (List.last parts "")); [reflexivity|].
    now rewrite app_empty_r.
  - assert (Hq : quoted_end (List.last parts "") = false).
    { unfold quoted_end.
      rewrite (existsb_false_last isVNPart parts "");
        [reflexivity | apply Split_not_nil | exact Hex]. }
    rewrite Hq. now rewrite app_empty_r.
Qed.

(** ** Lengths *)

Lemma Join_length_cons (e : string) (rest : list string) :
  (slen (strings.Join (e :: rest) "/")
   <= slen e + 1 + slen (strings.Join rest "/"))%nat
  /\ (slen e + slen (strings.Join rest "/")
      <= slen (strings.Join (e :: rest) "/"))%nat
  /\ (rest <> [] ->
      slen (strings.Join (e :: rest) "/")
      = slen e + 1 + slen (strings.Join rest "/"))%nat.
Proof.
  destruct rest as [|e' rest].
  - simpl. repeat split; try lia. congruence.
  - rewrite Join_cons by discriminate.
    unfold slen. rewrite !slength_app. cbn [String.length].
    repeat split; lia.
Qed.

Lemma Join_filter_length (f : string -> bool) (l : list string) :
  (slen (strings.Join (filter f l) "/") <= slen (strings.Join l "/"))%nat.
Proof.
  induction l as [|e l IH]; [simpl; lia|].
  cbn [filter].
  destruct (Join_length_cons e l) as (Hup & Hlo & Heq).
  destruct (f e).
  - destruct (Join_length_cons e (filter f l)) as (Hup' & _ & _).
    destruct l as [|e' l]; [simpl in *; lia|].
    specialize (Heq ltac:(discriminate)). lia.
  - lia.
Qed.

Lemma Join_filter_length_last (f : string -> bool) (l : list string) :
  l <> [] -> f (List.last l "") = false ->
  (slen (strings.Join (filter f l) "/") + slen (List.last l "")
   <= slen (strings.Join l "/"))%nat.
Proof.
  induction l as [|e l IH]; intros Hne Hlast; [congruence|].
  destruct l as [|e' l].
  - cbn [List.last] in Hlast. cbn [filter]. rewrite Hlast. simpl. lia.
  - change (List.last (e :: e' :: l) "") with (List.last (e' :: l) "") in *.
    specialize (IH ltac:(discriminate) Hlast).
    destruct (Join_length_cons e (e' :: l)) as (_ & _ & Heq).
    specialize (Heq ltac:(discriminate)).
    cbn [filter] in *.
    destruct (f e).
    + match goal with
      | |- context [strings.Join (e :: ?r) "/"] =>
          destruct (Join_length_cons e r) as (Hup' & _ & _)
      end.
      lia.
    + lia.
Qed.

Lemma HasSuffix_length (p : string) (c : byte) :
  strings.HasSuffix p c = true -> (1 <= slen p)%nat.
Proof.
  destruct p; simpl; [discriminate | lia].
Qed.

(** The result is never longer than the path. *)
Lemma stripped_length (pkgPath : string) :
  (slen (stripped pkgPath) <= slen pkgPath)%nat.
Proof.
  unfold stripped.
  set (parts := strings.Split pkgPath slash).
  assert (Hj : slen (strings.Join parts "/") = slen pkgPath)
    by (unfold parts; now rewrite Join_Split).
  unfold slen in *. rewrite slength_app.
  destruct (quoted_end (List.last parts "")) eqn:Hq.
  - unfold quoted_end in Hq. apply andb_prop in Hq. destruct Hq as [Hv Hs].
    pose proof (Join_filter_length_last keep parts (Split_not_nil _ _)) as H.
    unfold keep at 1 in H. rewrite Hv in H. specialize (H eq_refl).
    apply HasSuffix_length in Hs. unfold slen in *. cbn [String.length]. lia.
  - pose proof (Join_filter_length keep parts) as H.
    unfold slen in H. cbn [String.length]. lia.
Qed.

Lemma wrap_int64_small (z : Z) :
  - 2 ^ 63 <= z <= maxInt -> wrap_int64 z = z.
Proof.
  unfold wrap_int64, maxInt. intros H.
  rewrite Z.mod_small by lia. lia.
Qed.

Lemma removed_count (pkgPath : string) :
  len pkgPath <= maxInt ->
  snd (removeMajorVersionFromPath pkgPath)
  = len pkgPath - len (stripped pkgPath).
Proof.
  intros Hlen. rewrite removeMajorVersionFromPath_eq. cbn [snd].
  apply wrap_int64_small.
  pose proof (stripped_length pkgPath) as H.
  unfold len, slen, maxInt in *. lia.
Qed.

(** ** Decoding a string that ends in a quote *)

Lemma Decode_unfold (s : string) :
  utf8.DecodeRuneInString s =
    if len s <? 1 then (utf8.RuneError, 0)
    else
      let x := utf8.first (utf8.at_ s 0) in
      if x >=? utf8.as_ then
        if Z.testbit x 0 then (utf8.RuneError, 1) else (utf8.at_ s 0, 1)
      else
        decode_tail (Z.land x 7)
          (fst (utf8.acceptRanges (Z.shiftr x 4)))
          (snd (utf8.acceptRanges (Z.shiftr x 4)))
          (len s) (utf8.at_ s 0) (utf8.at_ s 1) (utf8.at_ s 2) (utf8.at_ s 3).
Proof. reflexivity. Qed.

Lemma first_multibyte (b : Z) :
  (utf8.first b >=? utf8.as_) = false ->
  2 <= Z.land (utf8.first b) 7 <= 4
  /\ 128 <= fst (utf8.acceptRanges (Z.shiftr (utf8.first b) 4)).
Proof.
  unfold utf8.first.
  repeat match goal with
         | |- context [if ?c then _ else _] => destruct c
         end;
    vm_compute; intros H; try discriminate H;
    repeat split; discriminate.
Qed.

Ltac split_tests :=
  repeat match goal with
         | |- context [?a <? ?b] => destruct (Z.ltb_spec a b)
         | |- context [?a <=? ?b] => destruct (Z.leb_spec a b)
         end.

Lemma decode_tail_size (sz lo hi n s0 b1 b2 b3 : Z) :
  1 <= n -> 2 <= sz <= 4 ->
  1 <= snd (decode_tail sz lo hi n s0 b1 b2 b3) <= n.
Proof.
  intros Hn Hsz. unfold decode_tail.
  split_tests; cbn [orb snd]; lia.
Qed.

(** One more byte below 0x80 after the string does not change what is
    decoded at its start. *)
Lemma decode_tail_app (sz lo hi n s0 b1 b2 b3 b1' b2' b3' : Z) :
  1 <= n -> 2 <= sz <= 4 -> 128 <= lo ->
  (1 < n -> b1' = b1) -> (n = 1 -> b1' = 34) ->
  (2 < n -> b2' = b2) -> (n = 2 -> b2' = 34) ->
  (3 < n -> b3' = b3) -> (n = 3 -> b3' = 34) ->
  decode_tail sz lo hi (n + 1) s0 b1' b2' b3'
  = decode_tail sz lo hi n s0 b1 b2 b3.
Proof.
  intros Hn Hsz Hlo H1 H1' H2 H2' H3 H3'.
  unfold decode_tail, utf8.locb.
  destruct (Z.ltb_spec n sz) as [Hlt|Hge].
  - (* the string was too short for the encoding *)
    destruct (Z.ltb_spec (n + 1) sz); [reflexivity|].
    assert (Hsz' : sz = n + 1) by lia.
    destruct (Z.eq_dec n 1) as [->|Hn1].
    + rewrite (H1' eq_refl).
      replace (34 <? lo) with true by (symmetry; apply Z.ltb_lt; lia).
      reflexivity.
    + rewrite (H1 ltac:(lia)).
      destruct ((b1 <? lo) || (hi <? b1)); [reflexivity|].
      replace (sz <=? 2) with false by (symmetry; apply Z.leb_gt; lia).
      destruct (Z.eq_dec n 2) as [->|Hn2].
      * rewrite (H2' eq_refl). reflexivity.
      * rewrite (H2 ltac:(lia)).
        destruct ((b2 <? 128) || (utf8.hicb <? b2)); [reflexivity|].
        replace (sz <=? 3) with false by (symmetry; apply Z.leb_gt; lia).
        assert (n = 3) by lia. subst n.
        rewrite (H3' eq_refl). reflexivity.
  - replace (n + 1 <? sz) with false by (symmetry; apply Z.ltb_ge; lia).
    rewrite (H1 ltac:(lia)).
    destruct ((b1 <? lo) || (hi <? b1)); [reflexivity|].
    destruct (Z.leb_spec sz 2); [reflexivity|].
    rewrite (H2 ltac:(lia)).
    destruct ((b2 <? 128) || (utf8.hicb <? b2)); [reflexivity|].
    destruct (Z.leb_spec sz 3); [reflexivity|].
    rewrite (H3 ltac:(lia)). reflexivity.
Qed.

Lemma len_cons (c : byte) (s : string) : len (String c s) = len s + 1.
Proof. unfold len. cbn [String.length]. lia. Qed.

Lemma len_nonneg (s : string) : 0 <= len s.
Proof. unfold len. lia. Qed.

Lemma len_app (s t : string) : len (s ++ t) = len s + len t.
Proof. unfold len. rewrite slength_app. lia. Qed.

Lemma at_app_lt (s t : string) (i : nat) :
  Z.of_nat i < len s -> utf8.at_ (s ++ t) i = utf8.at_ s i.
Proof.
  unfold utf8.at_. revert i.
  induction s as [|c s IH]; intros i Hi.
  - unfold len in Hi. simpl in Hi. lia.
  - destruct i as [|i]; [reflexivity|].
    cbn [append String.get]. apply IH.
    rewrite len_cons in Hi. lia.
Qed.

Lemma at_app_eq (s : string) (i : nat) :
  Z.of_nat i = len s -> utf8.at_ (s ++ qs) i = 34.
Proof.
  unfold utf8.at_. revert i.
  induction s as [|c s IH]; intros i Hi.
  - unfold len in Hi. simpl in Hi.
    assert (i = O) by lia. subst i. reflexivity.
  - rewrite len_cons in Hi. pose proof (len_nonneg s).
    destruct i as [|i]; [lia|].
    cbn [append String.get]. apply IH. lia.
Qed.

Lemma Decode_app_quote (s : string) :
  s <> "" ->
  utf8.DecodeRuneInString (s ++ qs) = utf8.DecodeRuneInString s.
Proof.
  intros Hne.
  assert (Hn : 1 <= len s).
  { destruct s; [congruence|]. rewrite len_cons. pose proof (len_nonneg s). lia. }
  rewrite !Decode_unfold.
  rewrite len_app. change (len qs) with 1.
  replace (len s + 1 <? 1) with false by (symmetry; apply Z.ltb_ge; lia).
  replace (len s <? 1) with false by (symmetry; apply Z.ltb_ge; lia).
  rewrite (at_app_lt s qs 0) by (simpl; lia).
  cbv zeta.
  destruct (utf8.first (utf8.at_ s 0) >=? utf8.as_) eqn:Hx; [reflexivity|].
  destruct (first_multibyte _ Hx) as [Hsz Hlo].
  apply decode_tail_app; try assumption; intros H.
  - apply at_app_lt. simpl. lia.
  - apply at_app_eq. simpl. lia.
  - apply at_app_lt. simpl. lia.
  - apply at_app_eq. simpl. lia.
  - apply at_app_lt. simpl. lia.
  - apply at_app_eq. simpl. lia.
Qed.

Lemma Decode_size (s : string) :
  1 <= len s -> 1 <= snd (utf8.DecodeRuneInString s) <= len s.
Proof.
  intros Hn. rewrite Decode_unfold.
  replace (len s <? 1) with false by (symmetry; apply Z.ltb_ge; lia).
  cbv zeta.
  destruct (utf8.first (utf8.at_ s 0) >=? utf8.as_) eqn:Hx.
  - destruct (Z.testbit _ 0); cbn [snd]; lia.
  - destruct (first_multibyte _ Hx) as [Hsz Hlo].
    now apply decode_tail_size.
Qed.

(** The runes of a string followed by a quote are the runes of the string
    followed by the quote. *)
Lemma runesFrom_app_quote (s : string) :
  forall skip : nat,
    (skip <= String.length s)%nat ->
    runesFrom skip (s ++ qs) = runesFrom skip s ++ [34].
Proof.
  induction s as [|c s IH]; intros skip Hskip.
  - simpl in Hskip. assert (skip = O) by lia. subst skip. reflexivity.
  - change ((String c s ++ qs)%string) with (String c (s ++ qs)).
    cbn [runesFrom].
    destruct skip as [|k].
    + change (String c (s ++ qs)) with ((String c s ++ qs)%string).
      rewrite Decode_app_quote by discriminate.
      pose proof (Decode_size (String c s)) as Hsz.
      rewrite len_cons in Hsz. pose proof (len_nonneg s) as Hs.
      specialize (Hsz ltac:(lia)).
      destruct (utf8.DecodeRuneInString (String c s)) as [r size].
      cbn [snd] in Hsz.
      rewrite IH by (unfold len in Hsz; lia).
      reflexivity.
    + apply IH. simpl in Hskip. lia.
Qed.

Lemma NewReader_app_quote (s : string) :
  NewReader (s ++ qs) = NewReader s ++ [34].
Proof. apply runesFrom_app_quote. lia. Qed.

(** ** Scanning an input that ends in a quote *)

(** Reading from the longer input: the same rune, or the quote where the
    input had ended. *)
Lemma getRune_ext (s : fmt.ss) :
  (exists r t, fmt.rs s = r :: t
     /\ fmt.getRune s = (r, fmt.advanced s t)
     /\ fmt.getRune (ext s) = (r, ext (fmt.advanced s t)))
  \/ (fmt.getRune s = (fmt.eof, s)
      /\ (fmt.getRune (ext s) = (fmt.eof, ext s)
          \/ fmt.getRune (ext s) = (34, fmt.advanced (ext s) [])
             /\ fmt.rs s = [])).
Proof.
  unfold fmt.getRune. cbn [ext fmt.count fmt.argLimit fmt.rs].
  destruct (fmt.count s >=? fmt.argLimit s).
  - right. split; [reflexivity | left; reflexivity].
  - destruct (fmt.rs s) as [|r t] eqn:Hrs.
    + right. split; [reflexivity | right]. split; reflexivity.
    + left. exists r, t. repeat split.
Qed.

Lemma peek_ext (ok : list rune) (s : fmt.ss) :
  fmt.indexRune ok 34 = false -> fmt.indexRune ok fmt.eof = false ->
  fmt.peek ok (ext s) = fmt.peek ok s.
Proof.
  intros Hq He. unfold fmt.peek.
  destruct (getRune_ext s) as [(r & t & _ & H1 & H2) | (H1 & [H2 | (H2 & _)])];
    rewrite H1, H2; congruence.
Qed.

Lemma SkipSpace_loop_ext (l : list rune) :
  forall s : fmt.ss,
    fmt.SkipSpace_loop (l ++ [34]) (ext s) = ext_result (fmt.SkipSpace_loop l s).
Proof.
  induction l as [|r t IH]; intros s.
  - cbn [app fmt.SkipSpace_loop ext fmt.count fmt.argLimit].
    destruct (fmt.count s >=? fmt.argLimit s); reflexivity.
  - cbn [app fmt.SkipSpace_loop].
    change (fmt.count (ext s)) with (fmt.count s).
    change (fmt.argLimit (ext s)) with (fmt.argLimit s).
    change (fmt.nlIsSpace (ext s)) with (fmt.nlIsSpace s).
    change (fmt.advanced (ext s) (t ++ [34])) with (ext (fmt.advanced s t)).
    rewrite peek_ext by reflexivity.
    rewrite !IH.
    destruct (fmt.count s >=? fmt.argLimit s); [reflexivity|].
    destruct ((r =? 13) && fmt.peek [10] (fmt.advanced s t)); [reflexivity|].
    destruct (r =? 10); [destruct (fmt.nlIsSpace s); reflexivity|].
    destruct (negb (fmt.isSpace r)); reflexivity.
Qed.

Lemma SkipSpace_ext (s : fmt.ss) :
  fmt.SkipSpace (ext s) = ext_result (fmt.SkipSpace s).
Proof. apply SkipSpace_loop_ext. Qed.

Lemma accept_loop_ext (digits : list rune) (l : list rune) :
  fmt.indexRune digits 34 = false ->
  forall s : fmt.ss,
    fmt.accept_loop digits (l ++ [34]) (ext s)
    = ext (fmt.accept_loop digits l s).
Proof.
  intros Hq.
  induction l as [|r t IH]; intros s.
  - cbn [app fmt.accept_loop]. rewrite Hq.
    change (fmt.count (ext s)) with (fmt.count s).
    change (fmt.argLimit (ext s)) with (fmt.argLimit s).
    destruct (fmt.count s >=? fmt.argLimit s); reflexivity.
  - cbn [app fmt.accept_loop].
    change (fmt.count (ext s)) with (fmt.count s).
    change (fmt.argLimit (ext s)) with (fmt.argLimit s).
    change (fmt.writeRune (fmt.advanced (ext s) (t ++ [34])) r)
      with (ext (fmt.writeRune (fmt.advanced s t) r)).
    rewrite IH.
    destruct (fmt.count s >=? fmt.argLimit s); [reflexivity|].
    destruct (fmt.indexRune digits r); reflexivity.
Qed.

(** [accept] on the longer input, for a set of runes without the quote. *)
Lemma accept_ext (ok : list rune) (s : fmt.ss) :
  fmt.indexRune ok 34 = false ->
  fmt.accept ok (ext s)
  = (fst (fmt.accept ok s), ext (snd (fmt.accept ok s))).
Proof.
  intros Hq. unfold fmt.accept.
  destruct (getRune_ext s) as [(r & t & _ & H1 & H2) | (H1 & [H2 | (H2 & _)])];
    rewrite H1, H2.
  - destruct (r =? fmt.eof); [reflexivity|].
    destruct (fmt.indexRune ok r); reflexivity.
  - reflexivity.
  - rewrite Hq. reflexivity.
Qed.

Lemma scanNumber_ext (s : fmt.ss) :
  match fmt.scanNumber fmt.decimalDigits s with
  | Ok (tok, s') =>
      fmt.scanNumber fmt.decimalDigits (ext s) = Ok (tok, ext s')
  | Err _ => is_ok (fmt.scanNumber fmt.decimalDigits (ext s)) = false
  end.
Proof.
  unfold fmt.scanNumber, fmt.notEOF.
  destruct (getRune_ext s) as [(r & t & _ & H1 & H2) | (H1 & [H2 | (H2 & _)])];
    rewrite H1, H2.
  - destruct (r =? fmt.eof); [reflexivity|]. cbn [bind].
    rewrite accept_ext by reflexivity.
    unfold fmt.accept. rewrite H1.
    destruct (r =? fmt.eof); [reflexivity|].
    destruct (fmt.indexRune fmt.decimalDigits r); cbn [fst snd negb];
      [|reflexivity].
    change (fmt.rs (ext (fmt.writeRune (fmt.advanced s t) r)))
      with (fmt.rs (fmt.writeRune (fmt.advanced s t) r) ++ [34]).
    rewrite accept_loop_ext by reflexivity.
    reflexivity.
  - reflexivity.
  - change (fmt.eof =? fmt.eof) with true. change (34 =? fmt.eof) with false.
    cbn [bind]. unfold fmt.accept. rewrite H2. reflexivity.
Qed.

Lemma scanInt_ext (bitSize : Z) (s : fmt.ss) :
  is_ok (fmt.scanInt bitSize (ext s)) = is_ok (fmt.scanInt bitSize s).
Proof.
  unfold fmt.scanInt.
  rewrite SkipSpace_ext.
  destruct (fmt.SkipSpace s) as [s1|e]; [|reflexivity].
  cbn [ext_result bind].
  unfold fmt.notEOF.
  destruct (getRune_ext s1) as [(r & t & Hrs & H1 & H2) | (H1 & [H2 | (H2 & Hrs)])];
    rewrite H1, H2.
  - destruct (r =? fmt.eof); [reflexivity|]. cbn [bind].
    rewrite accept_ext by reflexivity.
    destruct (fmt.accept fmt.sign s1) as [b s2]. cbn [fst snd].
    pose proof (scanNumber_ext s2) as Hn.
    destruct (fmt.scanNumber fmt.decimalDigits s2) as [[tok s3]|e].
    + rewrite Hn. cbn [bind].
      destruct (strconv.ParseInt tok) as [i|e]; [|reflexivity].
      cbn [bind].
      destruct (negb (_ =? i)); reflexivity.
    + destruct (fmt.scanNumber fmt.decimalDigits (ext s2)) as [[tok s3]|e'];
        [discriminate Hn | reflexivity].
  - reflexivity.
  - (* the input had ended: the quote is read and is no digit *)
    change (34 =? fmt.eof) with false. change (fmt.eof =? fmt.eof) with true.
    cbn [bind].
    unfold fmt.accept at 1. rewrite H2.
    change (34 =? fmt.eof) with false.
    change (fmt.indexRune fmt.sign 34) with false.
    cbv iota beta.
    unfold fmt.scanNumber, fmt.notEOF. rewrite H2.
    change (34 =? fmt.eof) with false. cbn [bind].
    unfold fmt.accept. rewrite H2.
    reflexivity.
Qed.

Lemma Fscanf_v_int_quote (l : list rune) :
  is_ok (fmt.Fscanf_v_int (l ++ [34])) = is_ok (fmt.Fscanf_v_int l).
Proof.
  unfold fmt.Fscanf_v_int.
  change (fmt.newScanState (l ++ [34])) with (ext (fmt.newScanState l)).
  generalize (fmt.newScanState l). intros s.
  unfold fmt.advance_literal, fmt.mustReadRune.
  destruct (getRune_ext s) as [(r & t & Hrs & H1 & H2) | (H1 & [H2 | (H2 & Hrs)])];
    rewrite H1, H2.
  - destruct (r =? fmt.eof); [reflexivity|]. cbn [bind].
    destruct (negb (118 =? r)); [reflexivity|]. cbn [bind].
    rewrite SkipSpace_ext.
    destruct (fmt.SkipSpace (fmt.advanced s t)) as [s1|e]; [|reflexivity].
    cbn [ext_result bind].
    change (fmt.clearBuf (fmt.setArgLimit (ext s1)))
      with (ext (fmt.clearBuf (fmt.setArgLimit s1))).
    pose proof (scanInt_ext fmt.intBits (fmt.clearBuf (fmt.setArgLimit s1))) as H.
    destruct (fmt.scanInt fmt.intBits (ext _)) as [[v s2]|e];
      destruct (fmt.scanInt fmt.intBits (fmt.clearBuf _)) as [[v' s2']|e'];
      try discriminate H; reflexivity.
  - reflexivity.
  - reflexivity.
Qed.

(** A quote after a part does not change whether it is a version part. *)
Lemma isVNPart_app_quote (p : string) : isVNPart (p ++ qs) = isVNPart p.
Proof.
  unfold isVNPart. rewrite NewReader_app_quote. apply Fscanf_v_int_quote.
Qed.

(** ** Paths the stripper leaves alone *)

Lemma filter_keep_all (l : list string) :
  Forall (fun p => isVNPart p = false) l -> filter keep l = l.
Proof.
  induction 1 as [|p l Hp Hl IH]; [reflexivity|].
  cbn [filter]. unfold keep at 1. rewrite Hp. cbn [negb]. now rewrite IH.
Qed.

Lemma Forall_last {A : Type} (P : A -> Prop) (l : list A) (d : A) :
  l <> [] -> Forall P l -> P (List.last l d).
Proof.
  induction l as [|a l IH]; intros Hne Hall; [congruence|].
  inversion Hall as [|? ? Ha Hl]; subst.
  destruct l as [|b l]; [exact Ha|].
  change (List.last (a :: b :: l) d) with (List.last (b :: l) d).
  apply IH; [discriminate | exact Hl].
Qed.

(** A path made of plain parts comes back as it is, with a count of 0. *)
Lemma plain_parts_unchanged (l : list string) :
  l <> [] -> Forall plain l ->
  removeMajorVersionFromPath (strings.Join l "/") = (strings.Join l "/", 0).
Proof.
  intros Hne Hall.
  assert (Hs : Forall (fun p => has_byte slash p = false) l)
    by (eapply Forall_impl; [|exact Hall]; intros p [H _]; exact H).
  assert (Hv : Forall (fun p => isVNPart p = false) l)
    by (eapply Forall_impl; [|exact Hall]; intros p [_ H]; exact H).
  rewrite removeMajorVersionFromPath_eq.
  assert (Hst : stripped (strings.Join l "/") = strings.Join l "/").
  { unfold stripped. rewrite Split_Join by assumption.
    rewrite filter_keep_all by assumption.
    unfold quoted_end.
    rewrite (Forall_last (fun p => isVNPart p = false) l "" Hne Hv).
    cbn [andb]. apply app_empty_r. }
  rewrite Hst. rewrite Z.sub_diag. reflexivity.
Qed.

(** A path without a part that [isVNPart] accepts comes back as it is. *)
Lemma no_version_part_unchanged (pkgPath : string) :
  Forall (fun p => isVNPart p = false) (strings.Split pkgPath slash) ->
  removeMajorVersionFromPath pkgPath = (pkgPath, 0).
Proof.
  intros Hall.
  rewrite <- (Join_Split pkgPath) at 1 2.
  apply plain_parts_unchanged; [apply Split_not_nil|].
  pose proof (Split_no_sep pkgPath slash) as Hs.
  rewrite Forall_forall in *. intros p Hp. split; auto.
Qed.

Lemma has_byte_app (c : byte) (s t : string) :
  has_byte c (s ++ t) = has_byte c s || has_byte c t.
Proof.
  unfold has_byte. induction s as [|a s IH]; [reflexivity|].
  cbn [append list_ascii_of_string existsb]. rewrite IH. apply orb_assoc.
Qed.

Lemma plain_app_quote (p : string) : plain p -> plain (p ++ qs).
Proof.
  intros [Hs Hv]. split.
  - rewrite has_byte_app, Hs. reflexivity.
  - now rewrite isVNPart_app_quote.
Qed.

(** A quote after a joined path is a quote after its last part. *)
Lemma Join_app_quote (l : list string) :
  l <> [] -> Forall plain l ->
  exists l', l' <> [] /\ Forall plain l'
             /\ (strings.Join l "/" ++ qs)%string = strings.Join l' "/".
Proof.
  induction l as [|e l IH]; intros Hne Hall; [congruence|].
  inversion Hall as [|? ? He Hl]; subst.
  destruct l as [|e' l].
  - exists [(e ++ qs)%string]. split; [discriminate|]. split; [|reflexivity].
    constructor; [now apply plain_app_quote | constructor].
  - destruct (IH ltac:(discriminate) Hl) as (l' & Hne' & Hall' & Heq).
    exists (e :: l'). split; [discriminate|]. split; [now constructor|].
    rewrite (Join_cons e l') by assumption.
    rewrite (Join_cons e (e' :: l)) by discriminate.
    rewrite !app_assoc_s. now rewrite Heq.
Qed.

Lemma filter_keep_plain (l : list string) :
  Forall (fun p => has_byte slash p = false) l ->
  Forall plain (filter keep l).
Proof.
  induction 1 as [|p l Hp Hl IH]; [constructor|].
  cbn [filter]. destruct (keep p) eqn:Hk; [|exact IH].
  constructor; [|exact IH].
  split; [exact Hp|]. unfold keep in Hk. now destruct (isVNPart p).
Qed.

Lemma plain_empty : plain "".
Proof. split; reflexivity. Qed.

Lemma plain_quote : plain qs.
Proof. split; reflexivity. Qed.

(** What the stripper returns is a path of plain parts. *)
Lemma stripped_plain (pkgPath : string) :
  exists l, l <> [] /\ Forall plain l
            /\ stripped pkgPath = strings.Join l "/".
Proof.
  unfold stripped.
  pose proof (filter_keep_plain _ (Split_no_sep pkgPath slash)) as Hk.
  destruct (filter keep (strings.Split pkgPath slash)) as [|e l] eqn:Hf.
  - destruct (quoted_end _).
    + exists [qs]. split; [discriminate|]. split; [|reflexivity].
      constructor; [apply plain_quote | constructor].
    + exists [""]. split; [discriminate|]. split; [|reflexivity].
      constructor; [apply plain_empty | constructor].
  - destruct (quoted_end _).
    + apply Join_app_quote; [discriminate | exact Hk].
    + exists (e :: l). split; [discriminate|]. split; [exact Hk|].
      apply app_empty_r.
Qed.

(** ** Segments the predicate does recognize *)

Lemma geb_false (n m : Z) : n < m -> (n >=? m) = false.
Proof. intros H. rewrite Z.geb_leb. apply Z.leb_gt. exact H. Qed.

Lemma gtb_false (n m : Z) : n <= m -> (n >? m) = false.
Proof. intros H. rewrite Z.gtb_ltb. apply Z.ltb_ge. exact H. Qed.

Lemma digit_rune_cases (d : rune) :
  digit_rune d ->
  (d =? fmt.eof) = false /\ (d =? 13) = false /\ (d =? 10) = false
  /\ fmt.isSpace d = false /\ fmt.indexRune fmt.sign d = false
  /\ fmt.indexRune fmt.decimalDigits d = true
  /\ (d =? 43) = false /\ (d =? 45) = false.
Proof.
  unfold digit_rune. intros H.
  assert (Hd : d = 48 \/ d = 49 \/ d = 50 \/ d = 51 \/ d = 52 \/ d = 53
               \/ d = 54 \/ d = 55 \/ d = 56 \/ d = 57) by lia.
  repeat (destruct Hd as [-> | Hd]; [repeat split; reflexivity|]).
  subst d. repeat split; reflexivity.
Qed.

Lemma Decode_ascii (c : byte) (s : string) :
  byteval c < 128 -> utf8.DecodeRuneInString (String c s) = (byteval c, 1).
Proof.
  intros Hc. rewrite Decode_unfold. rewrite len_cons. pose proof (len_nonneg s).
  replace (len s + 1 <? 1) with false by (symmetry; apply Z.ltb_ge; lia).
  change (utf8.at_ (String c s) 0) with (byteval c).
  cbv zeta. unfold utf8.first.
  replace (byteval c <? 128) with true by (symmetry; apply Z.ltb_lt; lia).
  reflexivity.
Qed.

(** A string of digits reads as its bytes. *)
Lemma runesFrom_digits (ds : string) :
  allDigits ds = true ->
  runesFrom 0 ds = map byteval (list_ascii_of_string ds)
  /\ Forall digit_rune (map byteval (list_ascii_of_string ds)).
Proof.
  induction ds as [|c ds IH]; intros Hall.
  - split; [reflexivity | constructor].
  - cbn [allDigits] in Hall. apply andb_prop in Hall. destruct Hall as [Hc Hds].
    destruct (IH Hds) as [IHr IHf].
    unfold isDigit in Hc. apply andb_prop in Hc. destruct Hc as [Hlo Hhi].
    apply Z.leb_le in Hlo, Hhi.
    cbn [runesFrom list_ascii_of_string map].
    rewrite Decode_ascii by lia.
    change (Z.to_nat 1 - 1)%nat with O. rewrite IHr.
    split; [reflexivity|]. constructor; [split; assumption | exact IHf].
Qed.

Lemma accept_loop_digits (t : list rune) :
  forall s : fmt.ss,
    Forall digit_rune t ->
    fmt.count s + Z.of_nat (List.length t) < fmt.argLimit s ->
    fmt.buf (fmt.accept_loop fmt.decimalDigits t s) = fmt.buf s ++ t.
Proof.
  induction t as [|d t IH]; intros s Hall Hlim.
  - cbn [fmt.accept_loop]. rewrite app_nil_r.
    destruct (fmt.count s >=? fmt.argLimit s); reflexivity.
  - inversion Hall as [|? ? Hd Ht]; subst.
    cbn [fmt.accept_loop]. cbn [List.length] in Hlim.
    rewrite geb_false by lia.
    destruct (digit_rune_cases d Hd) as (_ & _ & _ & _ & _ & -> & _).
    rewrite IH; [|exact Ht|cbn [fmt.writeRune fmt.advanced fmt.count fmt.argLimit]; lia].
    cbn [fmt.writeRune fmt.advanced fmt.buf]. now rewrite <- app_assoc.
Qed.

(** Up to 18 digits stay below 10^18, so the digit loop of [ParseUint]
    never leaves 64 bits. *)
Lemma ParseUint_loop_digits (l : list rune) :
  forall n : Z,
    Forall digit_rune l ->
    0 <= n ->
    (n + 1) * 10 ^ Z.of_nat (List.length l) <= 10 ^ 18 ->
    exists m, strconv.ParseUint_loop l n = Ok m /\ 0 <= m < 10 ^ 18.
Proof.
  induction l as [|c l IH]; intros n Hall Hn Hb.
  - exists n. split; [reflexivity|]. cbn [List.length] in Hb.
    change (10 ^ Z.of_nat 0) with 1 in Hb. lia.
  - inversion Hall as [|? ? Hc Hl]; subst. unfold digit_rune in Hc.
    assert (Hpow : 10 ^ Z.of_nat (List.length (c :: l))
                   = 10 * 10 ^ Z.of_nat (List.length l)).
    { cbn [List.length]. rewrite Nat2Z.inj_succ, Z.pow_succ_r by lia. reflexivity. }
    rewrite Hpow in Hb.
    assert (Hp : 0 < 10 ^ Z.of_nat (List.length l))
      by (apply Z.pow_pos_nonneg; lia).
    assert (Hn10 : n * 10 + 10 <= 10 ^ 18) by nia.
    cbn [strconv.ParseUint_loop].
    replace ((48 <=? c) && (c <=? 57)) with true
      by (symmetry; apply andb_true_intro; split; apply Z.leb_le; lia).
    unfold strconv.maxUint64, wrap_uint64.
    rewrite geb_false by (change (10 ^ 18) with 1000000000000000000 in *;
                          change ((2 ^ 64 - 1) / 10 + 1) with 1844674407370955162; lia).
    change (2 ^ 64) with 18446744073709551616.
    change (10 ^ 18) with 1000000000000000000 in Hn10.
    rewrite (Z.mod_small (n * 10)) by lia.
    rewrite (Z.mod_small (n * 10 + (c - 48))) by lia.
    replace (n * 10 + (c - 48) <? n * 10) with false
      by (symmetry; apply Z.ltb_ge; lia).
    rewrite gtb_false by lia. cbn [orb].
    apply IH; [exact Hl | lia | nia].
Qed.

Section DigitsAhead.

Variables (s : fmt.ss) (d : rune) (t : list rune).
Hypothesis Hrs : fmt.rs s = d :: t.
Hypothesis Hd : digit_rune d.
Hypothesis Ht : Forall digit_rune t.
Hypothesis Hlim : fmt.count s + Z.of_nat (List.length (d :: t)) < fmt.argLimit s.

Lemma getRune_digit : fmt.getRune s = (d, fmt.advanced s t).
Proof.
  unfold fmt.getRune. cbn [List.length] in Hlim.
  rewrite geb_false by lia. now rewrite Hrs.
Qed.

Lemma SkipSpace_digit : fmt.SkipSpace s = Ok s.
Proof.
  unfold fmt.SkipSpace. rewrite Hrs. cbn [fmt.SkipSpace_loop].
  cbn [List.length] in Hlim. rewrite geb_false by lia.
  destruct (digit_rune_cases d Hd) as (_ & -> & -> & -> & _).
  reflexivity.
Qed.

Lemma notEOF_digit : fmt.notEOF s = Ok s.
Proof.
  unfold fmt.notEOF. rewrite getRune_digit.
  destruct (digit_rune_cases d Hd) as (-> & _). reflexivity.
Qed.

Lemma accept_sign_digit : fmt.accept fmt.sign s = (false, s).
Proof.
  unfold fmt.accept. rewrite getRune_digit.
  destruct (digit_rune_cases d Hd) as (-> & _ & _ & _ & -> & _). reflexivity.
Qed.

Lemma scanNumber_digits :
  exists s', fmt.scanNumber fmt.decimalDigits s = Ok (fmt.buf s ++ d :: t, s').
Proof.
  unfold fmt.scanNumber. rewrite notEOF_digit. cbn [bind].
  unfold fmt.accept. rewrite getRune_digit.
  destruct (digit_rune_cases d Hd) as (-> & _ & _ & _ & _ & -> & _).
  cbn [negb]. eexists. f_equal. f_equal.
  change (fmt.rs (fmt.writeRune (fmt.advanced s t) d)) with t.
  rewrite accept_loop_digits; [|exact Ht|].
  - cbn [fmt.writeRune fmt.advanced fmt.buf]. now rewrite <- app_assoc.
  - cbn [fmt.writeRune fmt.advanced fmt.count fmt.argLimit].
    cbn [List.length] in Hlim. lia.
Qed.

End DigitsAhead.

Lemma ParseInt_digits (d : rune) (t : list rune) :
  digit_rune d -> Forall digit_rune t -> (List.length (d :: t) <= 18)%nat ->
  exists m, strconv.ParseInt (d :: t) = Ok m /\ 0 <= m < 10 ^ 18.
Proof.
  intros Hd Ht Hlen. unfold strconv.ParseInt.
  destruct (digit_rune_cases d Hd) as (_ & _ & _ & _ & _ & _ & -> & ->).
  unfold strconv.ParseUint.
  destruct (ParseUint_loop_digits (d :: t) 0) as (m & Hm & Hr).
  - now constructor.
  - lia.
  - rewrite Z.mul_1_l. apply Z.pow_le_mono_r; lia.
  - exists m. rewrite Hm. cbn [bind negb andb].
    change (10 ^ 18) with 1000000000000000000 in Hr.
    change (2 ^ 63) with 9223372036854775808.
    rewrite geb_false by lia. split; [reflexivity | lia].
Qed.

Lemma Fscanf_v_int_digits (d : rune) (t : list rune) :
  digit_rune d -> Forall digit_rune t -> (List.length (d :: t) <= 18)%nat ->
  is_ok (fmt.Fscanf_v_int (118 :: d :: t)) = true.
Proof.
  intros Hd Ht Hlen.
  unfold fmt.Fscanf_v_int, fmt.advance_literal, fmt.mustReadRune.
  change (fmt.getRune (fmt.newScanState (118 :: d :: t)))
    with (118, fmt.advanced (fmt.newScanState (118 :: d :: t)) (d :: t)).
  cbn [bind]. change (118 =? fmt.eof) with false. cbn [bind].
  change (negb (118 =? 118)) with false. cbv iota.
  set (s1 := fmt.advanced (fmt.newScanState (118 :: d :: t)) (d :: t)).
  assert (Hlim : 1 + Z.of_nat (List.length (d :: t)) < fmt.hugeWid)
    by (change fmt.hugeWid with 1073741824; lia).
  cbn [bind].
  rewrite (SkipSpace_digit s1 d t eq_refl Hd Hlim). cbn [bind].
  set (s2 := fmt.clearBuf (fmt.setArgLimit s1)).
  assert (Hlim2 : fmt.count s2 + Z.of_nat (List.length (d :: t)) < fmt.argLimit s2)
    by exact Hlim.
  unfold fmt.scanInt.
  rewrite (SkipSpace_digit s2 d t eq_refl Hd Hlim2). cbn [bind].
  rewrite (notEOF_digit s2 d t eq_refl Hd Hlim2). cbn [bind].
  rewrite (accept_sign_digit s2 d t eq_refl Hd Hlim2).
  destruct (scanNumber_digits s2 d t eq_refl Hd Ht Hlim2) as (s3 & ->).
  cbn [bind]. change (fmt.buf s2 ++ d :: t) with (d :: t).
  destruct (ParseInt_digits d t Hd Ht Hlen) as (m & -> & Hm).
  cbn [bind]. change (64 - fmt.intBits) with 0.
  rewrite Z.shiftl_0_r, Z.shiftr_0_r.
  rewrite wrap_int64_small
    by (unfold maxInt; change (10 ^ 18) with 1000000000000000000 in Hm;
        change (2 ^ 63) with 9223372036854775808; lia).
  rewrite Z.eqb_refl. reflexivity.
Qed.

(** [v] followed by one to eighteen digits, with or without a quote after
    them, is a version part. *)
Lemma isVNPart_recognizes_digits (digits : string) :
  allDigits digits = true ->
  (1 <= String.length digits <= 18)%nat ->
  isVNPart (String "v" digits) = true
  /\ isVNPart (String "v" digits ++ qs) = true.
Proof.
  intros Hall Hlen.
  assert (Hv : isVNPart (String "v" digits) = true).
  { unfold isVNPart, NewReader. cbn [runesFrom].
    rewrite Decode_ascii by (vm_compute; reflexivity).
    change (Z.to_nat 1 - 1)%nat with O. change (byteval "v"%char) with 118.
    destruct (runesFrom_digits digits Hall) as [-> Hf].
    assert (Hl : List.length (map byteval (list_ascii_of_string digits))
                 = String.length digits).
    { rewrite length_map. clear. induction digits; simpl; congruence. }
    destruct (map byteval (list_ascii_of_string digits)) as [|d t].
    - simpl in Hl. lia.
    - inversion Hf; subst. apply Fscanf_v_int_digits; try assumption.
      unfold rune in *. rewrite Hl. lia. }
  split; [exact Hv|]. now rewrite isVNPart_app_quote.
Qed.

(** ** The version-segment predicate *)

(** C1 (the code at the failing input): [isVNPart] accepts the segment
    [v2mod], which is not [v] followed only by digits: the scan of ["v%d"]
    reads [v2] and never looks at the rest of its input, so the match is
    not against the whole segment. *)
Theorem isVNPart_accepts_longer_token :
  isVNPart "v2mod" = true /\ spec_IsVersionSegment "v2mod" = false.
Proof. split; vm_compute; reflexivity. Qed.

(** The same scan also takes a sign and white space before the digits, and
    refuses digits whose value leaves 64 bits. *)
Example isVNPart_other_inputs :
  isVNPart "v-2" = true /\ isVNPart "v 2" = true
  /\ isVNPart "v99999999999999999999" = false
  /\ spec_IsVersionSegment "v99999999999999999999" = true.
Proof. repeat split; vm_compute; reflexivity. Qed.

(** The cases of the repository's test of [isVNPart]. *)
Example isVNPart_tests :
  map isVNPart
    ["abc"; ("/v1" ++ qs)%string; "/v44"; "v44"; "v0"; ("v0" ++ qs)%string;
     ("v1" ++ qs)%string; ("v3333" ++ qs)%string]
  = [false; false; false; true; true; true; true; true].
Proof. vm_compute. reflexivity. Qed.

(** An input whose first byte is an ASCII byte other than [v] is refused
    at the literal of the format. *)
Lemma isVNPart_first_byte (c : byte) (t : string) :
  byteval c < 128 -> byteval c <> 118 -> isVNPart (String c t) = false.
Proof.
  intros Hascii Hv.
  assert (Hpos : 0 <= byteval c) by (unfold byteval; lia).
  unfold isVNPart, NewReader. cbn [runesFrom].
  rewrite Decode_ascii by exact Hascii.
  unfold fmt.Fscanf_v_int, fmt.advance_literal, fmt.mustReadRune.
  change (fmt.getRune (fmt.newScanState (byteval c :: runesFrom (Z.to_nat 1 - 1) t)))
    with (byteval c,
          fmt.advanced (fmt.newScanState (byteval c :: runesFrom (Z.to_nat 1 - 1) t))
            (runesFrom (Z.to_nat 1 - 1) t)).
  cbv iota beta.
  replace (byteval c =? fmt.eof) with false
    by (symmetry; apply Z.eqb_neq; unfold fmt.eof; lia).
  cbn [bind].
  replace (118 =? byteval c) with false by (symmetry; apply Z.eqb_neq; lia).
  reflexivity.
Qed.



(** ** The path stripper *)

(** The cases of the repository's test of [removeMajorVersionFromPath]. *)
Example removeMajorVersionFromPath_tests :
  map removeMajorVersionFromPath
    ["example.com/org/library/v6/pkg";
     "example.com/org/library/v999/pkg";
     "example.com/org/library/pkg";
     (qs ++ "example.com/org/library/v3333/subpkg" ++ qs)%string;
     (qs ++ "example.com/org/library/v33" ++ qs)%string;
     (qs ++ "example.com/org/library/pkg" ++ qs)%string;
     (qs ++ "example.com/org/gomobile-v2mod/v2" ++ qs)%string]
  = [("example.com/org/library/pkg", 3);
     ("example.com/org/library/pkg", 5);
     ("example.com/org/library/pkg", 0);
     ((qs ++ "example.com/org/library/subpkg" ++ qs)%string, 6);
     ((qs ++ "example.com/org/library" ++ qs)%string, 4);
     ((qs ++ "example.com/org/library/pkg" ++ qs)%string, 0);
     ((qs ++ "example.com/org/gomobile-v2mod" ++ qs)%string, 3)].
Proof. vm_compute. reflexivity. Qed.

(** C4 (the code at the failing input): no segment of
    [example.com/v2ray/core] is [v] followed only by digits, yet the
    stripper drops the segment [v2ray] and reports six bytes removed. *)
Theorem removeMajorVersionFromPath_drops_longer_token :
  forallb (fun p => negb (spec_IsVersionSegment p))
          (strings.Split "example.com/v2ray/core" slash) = true
  /\ removeMajorVersionFromPath "example.com/v2ray/core"
     = ("example.com/core", 6).
Proof. split; vm_compute; reflexivity. Qed.


(** C6: stripping a stripped path gives it back with a count of 0. *)
Theorem removeMajorVersionFromPath_idempotent (pkgPath : string) :
  removeMajorVersionFromPath (fst (removeMajorVersionFromPath pkgPath))
  = (fst (removeMajorVersionFromPath pkgPath), 0).
Proof.
  rewrite (removeMajorVersionFromPath_eq pkgPath). cbn [fst].
  destruct (stripped_plain pkgPath) as (l & Hne & Hall & ->).
  now apply plain_parts_unchanged.
Qed.

(** C8: the length of the result and the count add up to the length of the
    path, for a path as long as a Go string can be. *)
Theorem removedCount_plus_result_length (pkgPath : string) :
  len pkgPath <= maxInt ->
  len (fst (removeMajorVersionFromPath pkgPath))
  + snd (removeMajorVersionFromPath pkgPath)
  = len pkgPath.
Proof.
  intros Hlen. rewrite removed_count by exact Hlen.
  rewrite removeMajorVersionFromPath_eq. cbn [fst]. lia.
Qed.

Lemma removedCount_plus_result_length_witness :
  len "example.com/org/library/v6/pkg" <= maxInt
  /\ len (fst (removeMajorVersionFromPath "example.com/org/library/v6/pkg"))
     + snd (removeMajorVersionFromPath "example.com/org/library/v6/pkg")
     = len "example.com/org/library/v6/pkg".
Proof.
  split; [vm_compute; discriminate|].
  apply (removedCount_plus_result_length "example.com/org/library/v6/pkg").
  vm_compute. discriminate.
Defined.




(** ** The resolver *)

Section ResolverFacts.

Context {E : Env}.

Lemma Import_unfold (depth : nat) (path : string) (st : State) :
  Import depth path st = Import_with (nested depth) path st.
Proof. destruct depth; reflexivity. Qed.

Lemma steps_refl (P : Event -> Prop) (st : State) : steps P st st.
Proof. split; [reflexivity|]. exists []. split; [reflexivity | constructor]. Qed.

Lemma steps_trans (P : Event -> Prop) (st1 st2 st3 : State) :
  steps P st1 st2 -> steps P st2 st3 -> steps P st1 st3.
Proof.
  intros [Hs1 (n1 & Ht1 & Hp1)] [Hs2 (n2 & Ht2 & Hp2)].
  split; [congruence|].
  exists (n2 ++ n1). split.
  - rewrite Ht2, Ht1. apply app_assoc.
  - apply Forall_app. split; assumption.
Qed.

Lemma steps_log (P : Event -> Prop) (e : Event) (st : State) :
  P e -> steps P st (log e st).
Proof.
  intros He. split; [reflexivity|].
  exists [e]. split; [reflexivity | constructor; [exact He | constructor]].
Qed.

Lemma steps_weaken (P Q : Event -> Prop) (st st' : State) :
  (forall e, P e -> Q e) -> steps P st st' -> steps Q st st'.
Proof.
  intros HPQ [Hs (n & Ht & Hp)]. split; [exact Hs|].
  exists n. split; [exact Ht|]. eapply Forall_impl; eauto.
Qed.

Lemma loadFileContents_steps (fpath : list string) :
  forall fileSrcs st,
    steps source st (snd (loadFileContents fpath fileSrcs st)).
Proof.
  induction fpath as [|fp rest IH]; intros fileSrcs st.
  - apply steps_refl.
  - cbn [loadFileContents].
    destruct (ReadFile fp) as [d|err].
    + eapply steps_trans; [|apply IH]. now apply steps_log.
    + now apply steps_log.
Qed.

Lemma loadPackageSources_steps (ctx : Context) (path srcDir : string)
    (st : State) :
  steps source st (snd (loadPackageSources ctx path srcDir st)).
Proof.
  unfold loadPackageSources.
  destruct (ctx_Import ctx path srcDir) as [goFiles|err].
  - eapply steps_trans; [|apply loadFileContents_steps]. now apply steps_log.
  - now apply steps_log.
Qed.

Lemma rewrite_imports_steps (imports : list string) :
  forall st, steps source st (snd (rewrite_imports imports st)).
Proof.
  induction imports as [|v rest IH]; intros st.
  - apply steps_refl.
  - cbn [rewrite_imports].
    destruct (removeMajorVersionFromPath v) as [r n].
    specialize (IH (log (EvRewrite v) st)).
    destruct (rewrite_imports rest (log (EvRewrite v) st)) as [rest' st'].
    cbn [snd] in *.
    eapply steps_trans; [|exact IH]. now apply steps_log.
Qed.

Lemma parse_files_steps (fileSrcs : list (string * string)) :
  forall astFiles st,
    steps source st (snd (parse_files fileSrcs astFiles st)).
Proof.
  induction fileSrcs as [|[fpath src] rest IH]; intros astFiles st.
  - apply steps_refl.
  - cbn [parse_files].
    destruct (ParseFile fpath src) as [astf|err].
    + pose proof (rewrite_imports_steps (Imports astf)
                    (log (EvParseFile fpath) st)) as Hr.
      destruct (rewrite_imports (Imports astf) (log (EvParseFile fpath) st))
        as [imports st'].
      cbn [snd] in Hr.
      eapply steps_trans; [|apply IH].
      eapply steps_trans; [|exact Hr]. now apply steps_log.
    + now apply steps_log.
Qed.

Lemma source_uses (h : Importer) (e : Event) : source e -> uses h e.
Proof. unfold source. destruct e; simpl; intros H; try discriminate; exact I. Qed.

(** The checker's run makes the calls its importer makes. *)
Lemma run_check_steps (P : Event -> Prop) (Inv : mmcImporter -> Prop)
    (importer : string -> State -> option (@Imported E) * State) :
  (forall p st, Inv (self st) -> steps P st (snd (importer p st))) ->
  forall c st, Inv (self st) -> steps P st (snd (run_check importer c st)).
Proof.
  intros Himp.
  induction c as [pkg err | p k IH]; intros st Hinv.
  - apply steps_refl.
  - cbn [run_check].
    pose proof (Himp p st Hinv) as Hs.
    destruct (importer p st) as [[r|] st']; cbn [snd] in Hs.
    + eapply steps_trans; [exact Hs|].
      apply IH. destruct Hs as [Hself _]. now rewrite Hself.
    + exact Hs.
Qed.


Lemma ensure_stdImporter_some (st : State) (h : Importer) :
  stdImporter (self st) = Some h -> ensure_stdImporter st = (h, st).
Proof. unfold ensure_stdImporter. now intros ->. Qed.

(** With the importer in place, [Import] leaves the instance as it is,
    makes no importer and asks no other one, however deep the checker's
    imports nest. *)
Lemma Import_reuse (depth : nat) :
  forall path st h,
    stdImporter (self st) = Some h ->
    steps (uses h) st (snd (Import depth path st)).
Proof.
  assert (Hbody : forall importer,
    (forall p st h, stdImporter (self st) = Some h ->
                    steps (uses h) st (snd (importer p st))) ->
    forall path st h,
      stdImporter (self st) = Some h ->
      steps (uses h) st (snd (Import_with importer path st))).
  { intros importer Himp path st h Hh.
    unfold Import_with. rewrite (ensure_stdImporter_some st h Hh).
    set (st1 := log (EvStdImport h path) st).
    assert (H1 : steps (uses h) st st1) by (apply steps_log; reflexivity).
    destruct (std_Import path) as [pkg [e|]]; [|exact H1].
    pose proof (loadPackageSources_steps (Ctx (self st1)) path
                  (filepath_Join [GOPATH (Ctx (self st1)); "src"; path])
                  st1) as H2.
    destruct (loadPackageSources _ _ _ st1) as [[fileSrcs|err] st2];
      cbn [snd] in H2;
      apply (steps_weaken _ (uses h) _ _ (source_uses h)) in H2;
      [|eapply steps_trans; eassumption].
    pose proof (parse_files_steps (range_order fileSrcs) [] st2) as H3.
    destruct (parse_files _ _ st2) as [[astFiles|err] st3];
      cbn [snd] in H3;
      apply (steps_weaken _ (uses h) _ _ (source_uses h)) in H3;
      [|eapply steps_trans; [eassumption | eapply steps_trans; eassumption]].
    assert (H4 : steps (uses h) st (log (EvCheck path) st3)).
    { eapply steps_trans; [exact H1|].
      eapply steps_trans; [exact H2|].
      eapply steps_trans; [exact H3|]. now apply steps_log. }
    eapply steps_trans; [exact H4|].
    apply (run_check_steps (uses h)
             (fun imp => stdImporter imp = Some h)).
    - intros p st' Hst'. now apply Himp.
    - destruct H4 as [Hself _]. now rewrite Hself. }
  induction depth as [|d IH]; intros path st h Hh;
    rewrite Import_unfold; apply Hbody; try assumption.
  intros p st' h' _. apply steps_refl.
Qed.

Lemma ensure_stdImporter_twice (st : State) :
  ensure_stdImporter (snd (ensure_stdImporter st)) = ensure_stdImporter st.
Proof.
  unfold ensure_stdImporter.
  destruct (stdImporter (self st)) as [h|] eqn:Hh; cbn [snd].
  - now rewrite Hh.
  - reflexivity.
Qed.

(** [Import] on an instance without importer goes on as on the instance
    with the importer it makes first. *)
Lemma Import_ensure (depth : nat) (path : string) (st : State) :
  Import depth path st = Import depth path (snd (ensure_stdImporter st)).
Proof.
  rewrite !Import_unfold. unfold Import_with.
  now rewrite ensure_stdImporter_twice.
Qed.

End ResolverFacts.

Section ResolverClaims.

Context {E : Env}.

Lemma created_app (a b : list Event) :
  created (a ++ b) = (created a + created b)%nat.
Proof. unfold created. now rewrite filter_app, List.length_app. Qed.

Lemma uses_created (h : Importer) (new : list Event) :
  Forall (uses h) new -> created new = O.
Proof.
  induction 1 as [|e l He Hl IH]; [reflexivity|].
  unfold created in *. cbn [filter].
  destruct e; cbn [is_ForCompiler]; try exact IH. destruct He.
Qed.

Lemma uses_asks_only (h : Importer) (e : Event) : uses h e -> asks_only h e.
Proof. destruct e; simpl; auto. Qed.

Lemma source_no_check (l : list Event) :
  Forall source l -> existsb is_Check l = false.
Proof.
  induction 1 as [|e l He Hl IH]; [reflexivity|].
  cbn [existsb]. rewrite IH. unfold source in He.
  destruct e; simpl in *; congruence.
Qed.

Lemma nested_steps (depth : nat) (p : string) (st : State) (h : Importer) :
  stdImporter (self st) = Some h ->
  steps (uses h) st (snd (nested depth p st)).
Proof.
  destruct depth as [|d]; intros Hh.
  - apply steps_refl.
  - now apply Import_reuse.
Qed.

Lemma Import_each_reuse (depth : nat) (paths : list string) :
  forall st h,
    stdImporter (self st) = Some h ->
    steps (uses h) st (Import_each depth paths st).
Proof.
  induction paths as [|p rest IH]; intros st h Hh.
  - apply steps_refl.
  - cbn [Import_each].
    pose proof (Import_reuse depth p st h Hh) as Hs.
    eapply steps_trans; [exact Hs|].
    apply IH. destruct Hs as [Hself _]. now rewrite Hself.
Qed.

(** C3: where the baseline importer succeeds, [Import] returns its
    package with a nil error, whatever the depth allowed for nested
    imports, and makes no call of the fallback path: no source is listed,
    read or parsed, no import is rewritten, nothing is checked. *)
Theorem Import_baseline_success (depth : nat) (path : string) (st : State)
    (pkg : option Package) :
  std_Import path = (pkg, None) ->
  fst (Import depth path st) = Some (pkg, None)
  /\ exists new,
       trace (snd (Import depth path st)) = new ++ trace st
       /\ forallb (fun e => negb (is_fallback e)) new = true.
Proof.
  intros Hstd. rewrite Import_unfold. unfold Import_with.
  unfold ensure_stdImporter.
  destruct (stdImporter (self st)) as [h|]; rewrite Hstd; cbn [fst snd].
  - split; [reflexivity|].
    exists [EvStdImport h path]. split; reflexivity.
  - split; [reflexivity|].
    exists [EvStdImport (created (trace st)) path;
            EvForCompiler (created (trace st))].
    split; reflexivity.
Qed.

(** C9: over any run of calls on one instance, nested calls of the
    checker included, an instance that has its importer keeps it, makes
    no other and asks no other; an instance that has none makes exactly
    one, in the first call, and every call asks that one. *)
Theorem stdImporter_initialized_once (depth : nat) (paths : list string)
    (st : State) :
  let st' := Import_each depth paths st in
  exists new,
    trace st' = new ++ trace st
    /\ match stdImporter (self st) with
       | Some h =>
           stdImporter (self st') = Some h
           /\ created new = O
           /\ Forall (asks_only h) new
       | None =>
           match paths with
           | [] => st' = st
           | _ :: _ =>
               exists h,
                 stdImporter (self st') = Some h
                 /\ created new = 1%nat
                 /\ Forall (asks_only h) new
           end
       end.
Proof.
  cbv zeta.
  destruct (stdImporter (self st)) as [h|] eqn:Hh.
  - destruct (Import_each_reuse depth paths st h Hh) as [Hself (new & Ht & Hf)].
    exists new. split; [exact Ht|].
    split; [now rewrite Hself|].
    split; [now apply uses_created with h|].
    eapply Forall_impl; [apply uses_asks_only | exact Hf].
  - destruct paths as [|p rest]; [exists []; split; reflexivity|].
    cbn [Import_each]. rewrite Import_ensure.
    set (st1 := snd (ensure_stdImporter st)).
    set (h := created (trace st)).
    assert (Hst1 : st1 = {| self := {| Ctx := Ctx (self st);
                                        stdImporter := Some h |};
                            trace := EvForCompiler h :: trace st |})
      by (unfold st1, ensure_stdImporter; now rewrite Hh).
    assert (Hh1 : stdImporter (self st1) = Some h) by now rewrite Hst1.
    change (Import_each depth rest (snd (Import depth p st1)))
      with (Import_each depth (p :: rest) st1).
    destruct (Import_each_reuse depth (p :: rest) st1 h Hh1)
      as [Hself (new & Ht & Hf)].
    exists (new ++ [EvForCompiler h]). split.
    + rewrite Ht, Hst1. cbn [trace]. now rewrite <- app_assoc.
    + exists h. split; [now rewrite Hself|]. split.
      * rewrite created_app, (uses_created h new Hf). reflexivity.
      * apply Forall_app. split.
        -- eapply Forall_impl; [apply uses_asks_only | exact Hf].
        -- constructor; [exact I | constructor].
Qed.

(** A failure to load returns the error and no package. *)
Lemma Import_load_error (depth : nat) (path : string) (st : State)
    (e err : error) :
  snd (std_Import path) = Some e ->
  (let '(h, st1) := ensure_stdImporter st in
   let st2 := log (EvStdImport h path) st1 in
   fst (loadPackageSources (Ctx (self st2)) path
          (filepath_Join [GOPATH (Ctx (self st2)); "src"; path]) st2))
  = Err err ->
  fst (Import depth path st) = Some (None, Some err).
Proof.
  intros Hstd Hload. rewrite Import_unfold. unfold Import_with.
  destruct (ensure_stdImporter st) as [h st1].
  destruct (std_Import path) as [pkg [e'|]]; [|discriminate Hstd].
  cbv zeta in Hload.
  destruct (loadPackageSources _ _ _ _) as [[fileSrcs|err'] st3];
    cbn [fst] in Hload; [discriminate Hload|].
  injection Hload as ->. reflexivity.
Qed.

(** A failure to parse returns the error and no package. *)
Lemma Import_parse_error (depth : nat) (path : string) (st : State)
    (e err : error) :
  snd (std_Import path) = Some e ->
  (let '(h, st1) := ensure_stdImporter st in
   let st2 := log (EvStdImport h path) st1 in
   match loadPackageSources (Ctx (self st2)) path
           (filepath_Join [GOPATH (Ctx (self st2)); "src"; path]) st2 with
   | (Ok fileSrcs, st3) =>
       fst (parse_files (range_order fileSrcs) [] st3) = Err err
   | (Err _, _) => False
   end) ->
  fst (Import depth path st) = Some (None, Some err).
Proof.
  intros Hstd Hparse. rewrite Import_unfold. unfold Import_with.
  destruct (ensure_stdImporter st) as [h st1].
  destruct (std_Import path) as [pkg [e'|]]; [|discriminate Hstd].
  cbv zeta in Hparse.
  destruct (loadPackageSources _ _ _ _) as [[fileSrcs|err'] st3];
    [|contradiction].
  destruct (parse_files _ _ st3) as [[astFiles|err'] st4];
    cbn [fst] in Hparse; [discriminate Hparse|].
  injection Hparse as ->. reflexivity.
Qed.


End ResolverClaims.

(** ** The resolver in the sample world *)

Lemma Import_baseline_success_witness :
  fst (@Import sample_env 2 "fmt" fresh_instance) = Some (Some "fmt", None)
  /\ exists new,
       trace (snd (@Import sample_env 2 "fmt" fresh_instance))
       = new ++ trace fresh_instance
       /\ forallb (fun e => negb (is_fallback e)) new = true.
Proof.
  apply (@Import_baseline_success sample_env 2 "fmt" fresh_instance (Some "fmt")).
  reflexivity.
Defined.



(** * Further properties *)

(** ** More about the version-segment predicate *)

Lemma runesFrom_length (s : string) :
  forall skip : nat, (List.length (runesFrom skip s) <= String.length s)%nat.
Proof.
  induction s as [|c s IH]; intros skip; [simpl; lia|].
  cbn [runesFrom String.length].
  destruct skip as [|k].
  - destruct (utf8.DecodeRuneInString (String c s)) as [r size].
    cbn [List.length]. specialize (IH (Z.to_nat size - 1)%nat). lia.
  - specialize (IH k). lia.
Qed.

(** The scan needs the literal and one digit at least. *)
Lemma Fscanf_v_int_two_runes (l : list rune) :
  is_ok (fmt.Fscanf_v_int l) = true -> (2 <= List.length l)%nat.
Proof.
  destruct l as [|x [|y l]]; intros H; [| |simpl; lia]; exfalso.
  - discriminate H.
  - unfold fmt.Fscanf_v_int, fmt.advance_literal, fmt.mustReadRune in H.
    change (fmt.getRune (fmt.newScanState [x]))
      with (x, fmt.advanced (fmt.newScanState [x]) []) in H.
    cbv iota beta in H.
    destruct (x =? fmt.eof); [discriminate H|]. cbn [bind] in H.
    destruct (negb (118 =? x)); [discriminate H|]. cbn [bind] in H.
    discriminate H.
Qed.

Lemma isVNPart_two_bytes (p : string) :
  isVNPart p = true -> (2 <= String.length p)%nat.
Proof.
  unfold isVNPart, NewReader. intros H.
  apply Fscanf_v_int_two_runes in H.
  pose proof (runesFrom_length p 0). lia.
Qed.

(** X1: a quote after a part does not change the verdict of [isVNPart]:
    the trailing quote of a path literal is never looked at. *)
Theorem isVNPart_ignores_trailing_quote (p : string) :
  isVNPart (p ++ String quote "") = isVNPart p.
Proof. exact (isVNPart_app_quote p). Qed.

Lemma byteval_inj (c c' : byte) : byteval c = byteval c' -> c = c'.
Proof.
  unfold byteval. intros H. apply N2Z.inj in H.
  rewrite <- (ascii_N_embedding c), <- (ascii_N_embedding c'). now rewrite H.
Qed.

(** X2: a part whose first byte is an ASCII byte other than [v] is never a
    version part, whatever follows. *)
Theorem isVNPart_refuses_other_first_byte (c : byte) (t : string) :
  byteval c < 128 -> c <> "v"%char -> isVNPart (String c t) = false.
Proof.
  intros Hascii Hv. apply isVNPart_first_byte; [exact Hascii|].
  intros H. apply Hv. apply byteval_inj. exact H.
Qed.

Lemma isVNPart_refuses_other_first_byte_witness :
  isVNPart (String "g"%char "omobile-v2mod") = false.
Proof.
  apply (isVNPart_refuses_other_first_byte "g"%char "omobile-v2mod").
  - vm_compute. reflexivity.
  - discriminate.
Defined.

(** ** More about the path stripper *)

Lemma Join_filter_drop (f : string -> bool) (l : list string) :
  (forall p, In p l -> f p = false -> (2 <= slen p)%nat) ->
  existsb (fun p => negb (f p)) l = true ->
  (slen (strings.Join (filter f l) "/") + 2 <= slen (strings.Join l "/"))%nat.
Proof.
  induction l as [|e l IH]; intros Hlen Hex; [discriminate Hex|].
  cbn [existsb] in Hex. cbn [filter].
  destruct (Join_length_cons e l) as (Hup & Hlo & Heq).
  destruct (f e) eqn:Hfe; cbn [negb orb] in Hex.
  - assert (Hne : l <> []) by (destruct l; [discriminate Hex | discriminate]).
    specialize (IH (fun p Hp => Hlen p (or_intror Hp)) Hex).
    specialize (Heq Hne).
    destruct (Join_length_cons e (filter f l)) as (Hup' & _ & _).
    lia.
  - pose proof (Hlen e (or_introl eq_refl) Hfe).
    pose proof (Join_filter_length f l). lia.
Qed.

Lemma existsb_not_keep (l : list string) :
  existsb (fun p => negb (keep p)) l = existsb isVNPart l.
Proof.
  induction l as [|p l IH]; [reflexivity|].
  cbn [existsb]. unfold keep at 1. now rewrite negb_involutive, IH.
Qed.

(** Dropping a part makes the result shorter. *)
Lemma stripped_shorter (pkgPath : string) :
  existsb isVNPart (strings.Split pkgPath slash) = true ->
  (slen (stripped pkgPath) + 1 <= slen pkgPath)%nat.
Proof.
  intros Hex. unfold stripped.
  set (parts := strings.Split pkgPath slash) in *.
  assert (Hj : slen (strings.Join parts "/") = slen pkgPath)
    by (unfold parts; now rewrite Join_Split).
  pose proof (Join_filter_drop keep parts) as Hd.
  assert (Hd' : (slen (strings.Join (filter keep parts) "/") + 2
                 <= slen (strings.Join parts "/"))%nat).
  { apply Hd.
    - intros p _ Hk. unfold keep in Hk. apply isVNPart_two_bytes.
      now destruct (isVNPart p).
    - now rewrite existsb_not_keep. }
  unfold slen in *. rewrite slength_app.
  destruct (quoted_end _); cbn [String.length]; lia.
Qed.

Lemma existsb_false_Forall {A : Type} (f : A -> bool) (l : list A) :
  existsb f l = false <-> Forall (fun a => f a = false) l.
Proof.
  induction l as [|a l IH]; cbn [existsb].
  - split; [constructor | reflexivity].
  - rewrite orb_false_iff, IH. split.
    + intros [Ha Hl]. now constructor.
    + intros H. inversion H; subst. now split.
Qed.

(** X3: the path comes back unchanged exactly when [isVNPart] refuses all
    its parts. *)
Theorem removeMajorVersionFromPath_unchanged_iff (pkgPath : string) :
  fst (removeMajorVersionFromPath pkgPath) = pkgPath
  <-> Forall (fun p => isVNPart p = false) (strings.Split pkgPath slash).
Proof.
  split.
  - intros Heq. apply existsb_false_Forall.
    destruct (existsb isVNPart (strings.Split pkgPath slash)) eqn:Hex;
      [|reflexivity].
    apply stripped_shorter in Hex.
    rewrite removeMajorVersionFromPath_eq in Heq. cbn [fst] in Heq.
    rewrite Heq in Hex. lia.
  - intros Hall. now rewrite (no_version_part_unchanged pkgPath Hall).
Qed.

(** X4: the count is never negative and never more than the length of the
    path; it is 0 exactly when [isVNPart] refuses all the parts. *)
Theorem removedCount_bounds (pkgPath : string) :
  len pkgPath <= maxInt ->
  0 <= snd (removeMajorVersionFromPath pkgPath) <= len pkgPath
  /\ (snd (removeMajorVersionFromPath pkgPath) = 0
      <-> Forall (fun p => isVNPart p = false) (strings.Split pkgPath slash)).
Proof.
  intros Hlen. rewrite removed_count by exact Hlen.
  pose proof (stripped_length pkgPath) as Hle.
  pose proof (len_nonneg (stripped pkgPath)) as Hnn.
  unfold len, slen in *. split; [lia|]. split.
  - intros Hz. apply existsb_false_Forall.
    destruct (existsb isVNPart (strings.Split pkgPath slash)) eqn:Hex;
      [|reflexivity].
    apply stripped_shorter in Hex. unfold slen in Hex. lia.
  - intros Hall.
    pose proof (no_version_part_unchanged pkgPath Hall) as Hu.
    rewrite removeMajorVersionFromPath_eq in Hu.
    injection Hu as Hs _. rewrite Hs. lia.
Qed.

Lemma removedCount_bounds_witness :
  0 <= snd (removeMajorVersionFromPath "example.com/org/library/v999/pkg")
    <= len "example.com/org/library/v999/pkg"
  /\ (snd (removeMajorVersionFromPath "example.com/org/library/v999/pkg") = 0
      <-> Forall (fun p => isVNPart p = false)
            (strings.Split "example.com/org/library/v999/pkg" slash)).
Proof.
  apply (removedCount_bounds "example.com/org/library/v999/pkg").
  vm_compute. discriminate.
Defined.

(** What the stripper returns has no version part. *)
Lemma stripped_no_version_part (v : string) :
  Forall (fun p => isVNPart p = false)
    (strings.Split (fst (removeMajorVersionFromPath v)) slash).
Proof.
  rewrite removeMajorVersionFromPath_eq. cbn [fst].
  destruct (stripped_plain v) as (l & Hne & Hall & ->).
  rewrite Split_Join.
  - eapply Forall_impl; [|exact Hall]. intros p [_ H]. exact H.
  - exact Hne.
  - eapply Forall_impl; [|exact Hall]. intros p [H _]. exact H.
Qed.

(** X5: no part of the result is a version part. *)
Theorem removeMajorVersionFromPath_leaves_no_version_part (pkgPath : string) :
  Forall (fun p => isVNPart p = false)
    (strings.Split (fst (removeMajorVersionFromPath pkgPath)) slash).
Proof. exact (stripped_no_version_part pkgPath). Qed.

(** *** Quotes *)

Lemma HasSuffix_app (s t : string) (c : byte) :
  t <> "" -> strings.HasSuffix (s ++ t) c = strings.HasSuffix t c.
Proof.
  intros Ht. induction s as [|a s IH]; [reflexivity|].
  change ((String a s ++ t)%string) with (String a (s ++ t)).
  cbn [strings.HasSuffix].
  destruct (s ++ t)%string eqn:Hst; [|exact IH].
  destruct s; [simpl in Hst; congruence | discriminate Hst].
Qed.

Lemma HasSuffix_cons (a : byte) (s : string) (c : byte) :
  s <> "" -> strings.HasSuffix (String a s) c = strings.HasSuffix s c.
Proof. destruct s; [congruence | reflexivity]. Qed.

(** A joined path ends in a quote exactly when its last part does. *)
Lemma HasSuffix_Join (l : list string) :
  l <> [] ->
  strings.HasSuffix (strings.Join l "/") quote
  = strings.HasSuffix (List.last l "") quote.
Proof.
  induction l as [|e l IH]; intros Hne; [congruence|].
  destruct l as [|e' l]; [reflexivity|].
  rewrite Join_cons by discriminate.
  change (List.last (e :: e' :: l) "") with (List.last (e' :: l) "").
  rewrite <- IH by discriminate.
  change (("/" ++ strings.Join (e' :: l) "/")%string)
    with (String slash (strings.Join (e' :: l) "/")).
  rewrite HasSuffix_app by discriminate.
  destruct (strings.Join (e' :: l) "/") eqn:Hj; [reflexivity|].
  apply HasSuffix_cons. discriminate.
Qed.

Lemma last_filter {A : Type} (f : A -> bool) (l : list A) (d : A) :
  l <> [] -> f (List.last l d) = true ->
  filter f l <> [] /\ List.last (filter f l) d = List.last l d.
Proof.
  induction l as [|a l IH]; intros Hne Hl; [congruence|].
  destruct l as [|b l].
  - cbn [List.last] in Hl. cbn [filter]. rewrite Hl.
    split; [discriminate | reflexivity].
  - change (List.last (a :: b :: l) d) with (List.last (b :: l) d) in *.
    destruct (IH ltac:(discriminate) Hl) as [Hne' Heq].
    cbn [filter] in *. destruct (f a).
    + split; [discriminate|].
      destruct (if f b then b :: filter f l else filter f l) eqn:Hf;
        [congruence|]. exact Heq.
    + split; assumption.
Qed.

(** X6: the closing quote of a path literal is never lost: a path that
    ends in a quote gives a result that ends in a quote. *)
Theorem removeMajorVersionFromPath_keeps_closing_quote (pkgPath : string) :
  strings.HasSuffix pkgPath quote = true ->
  strings.HasSuffix (fst (removeMajorVersionFromPath pkgPath)) quote = true.
Proof.
  intros Hq. rewrite removeMajorVersionFromPath_eq. cbn [fst].
  unfold stripped.
  set (parts := strings.Split pkgPath slash).
  assert (Hlast : strings.HasSuffix (List.last parts "") quote = true).
  { rewrite <- HasSuffix_Join by apply Split_not_nil.
    unfold parts. now rewrite Join_Split. }
  destruct (quoted_end (List.last parts "")) eqn:Hqe.
  - rewrite HasSuffix_app by discriminate. reflexivity.
  - rewrite app_empty_r.
    unfold quoted_end in Hqe. rewrite Hlast, andb_true_r in Hqe.
    destruct (last_filter keep parts "" (Split_not_nil _ _)) as [Hne Heq].
    { unfold keep. now rewrite Hqe. }
    rewrite HasSuffix_Join by exact Hne. now rewrite Heq.
Qed.

Lemma removeMajorVersionFromPath_keeps_closing_quote_witness :
  strings.HasSuffix
    (fst (removeMajorVersionFromPath
            (qs ++ "example.com/org/library/v33" ++ qs))) quote = true.
Proof.
  apply (removeMajorVersionFromPath_keeps_closing_quote
           (qs ++ "example.com/org/library/v33" ++ qs)).
  vm_compute. reflexivity.
Defined.

Lemma Split_cons_other (c : byte) (t : string) :
  Ascii.eqb c slash = false ->
  exists p ps, strings.Split (String c t) slash = String c p :: ps
               /\ strings.Split t slash = p :: ps.
Proof.
  intros Hc. cbn [strings.Split]. rewrite Hc.
  pose proof (Split_not_nil t slash) as Hne.
  destruct (strings.Split t slash) as [|p ps]; [congruence|].
  exists p, ps. split; reflexivity.
Qed.

Lemma HasPrefix_app (s t : string) (c : byte) :
  HasPrefix s c = true -> HasPrefix (s ++ t) c = true.
Proof. destruct s; [discriminate | intros H; exact H]. Qed.

Lemma HasPrefix_Join (e : string) (l : list string) (c : byte) :
  HasPrefix e c = true -> HasPrefix (strings.Join (e :: l) "/") c = true.
Proof.
  intros He. destruct l as [|e' l]; [exact He|].
  rewrite Join_cons by discriminate. now apply HasPrefix_app.
Qed.

(** X7: the opening quote of a path literal is kept: a path that begins
    with a quote gives a result that begins with a quote. *)
Theorem removeMajorVersionFromPath_keeps_opening_quote (pkgPath : string) :
  HasPrefix pkgPath quote = true ->
  HasPrefix (fst (removeMajorVersionFromPath pkgPath)) quote = true.
Proof.
  intros Hq. rewrite removeMajorVersionFromPath_eq. cbn [fst].
  destruct pkgPath as [|c t]; [discriminate Hq|].
  cbn [HasPrefix] in Hq. apply Ascii.eqb_eq in Hq. subst c.
  unfold stripped.
  destruct (Split_cons_other quote t eq_refl) as (p & ps & -> & _).
  cbn [filter]. unfold keep at 1.
  rewrite (isVNPart_first_byte quote p) by (vm_compute; congruence).
  cbn [negb]. apply HasPrefix_app. apply HasPrefix_Join. reflexivity.
Qed.

Lemma removeMajorVersionFromPath_keeps_opening_quote_witness :
  HasPrefix
    (fst (removeMajorVersionFromPath
            (qs ++ "example.com/org/library/v33" ++ qs))) quote = true.
Proof.
  apply (removeMajorVersionFromPath_keeps_opening_quote
           (qs ++ "example.com/org/library/v33" ++ qs)).
  vm_compute. reflexivity.
Defined.

(** *** A version part in any position *)

Lemma Forall_plain_app (a b : list string) :
  Forall plain a -> Forall plain b -> Forall plain (a ++ b).
Proof. intros Ha Hb. apply Forall_app. now split. Qed.

Lemma filter_keep_middle (a b : list string) (v : string) :
  Forall plain a -> Forall plain b -> isVNPart v = true ->
  filter keep (a ++ v :: b) = a ++ b.
Proof.
  intros Ha Hb Hv. rewrite filter_app. cbn [filter]. unfold keep at 2.
  rewrite Hv. cbn [negb].
  rewrite !filter_keep_all; [reflexivity| |].
  - eapply Forall_impl; [|exact Hb]. intros p [_ H]. exact H.
  - eapply Forall_impl; [|exact Ha]. intros p [_ H]. exact H.
Qed.

Lemma last_app_cons {A : Type} (a b : list A) (v d : A) :
  List.last (a ++ v :: b) d = List.last (v :: b) d.
Proof.
  induction a as [|x a IH]; [reflexivity|].
  cbn [app]. destruct (a ++ v :: b) eqn:Hab; [destruct a; discriminate|].
  exact IH.
Qed.

(** With one version part [v] between the plain parts [a] and [b]. *)
Lemma stripped_one_part (a b : list string) (v : string) :
  Forall plain a -> Forall plain b ->
  isVNPart v = true -> has_byte slash v = false ->
  stripped (strings.Join (a ++ v :: b) "/")
  = (strings.Join (a ++ b) "/"
     ++ (match b with
         | [] => if strings.HasSuffix v quote then String quote "" else ""
         | _ :: _ => ""
         end))%string.
Proof.
  intros Ha Hb Hv Hs. unfold stripped.
  rewrite Split_Join.
  - rewrite filter_keep_middle by assumption. f_equal.
    rewrite last_app_cons.
    destruct b as [|e b].
    + cbn [List.last]. unfold quoted_end. rewrite Hv. reflexivity.
    + change (List.last (v :: e :: b) "") with (List.last (e :: b) "").
      unfold quoted_end.
      assert (Hl : plain (List.last (e :: b) ""))
        by (apply Forall_last; [discriminate | exact Hb]).
      destruct Hl as [_ ->]. reflexivity.
  - destruct a; discriminate.
  - apply Forall_app. split.
    + eapply Forall_impl; [|exact Ha]. intros p [H _]. exact H.
    + constructor; [exact Hs|].
      eapply Forall_impl; [|exact Hb]. intros p [H _]. exact H.
Qed.

(** X8: a version part is dropped wherever it stands: between the plain
    parts [a] and [b], the result is [a] and [b] joined, with one quote
    after it when the version part is the last one and ends in a quote. *)
Theorem removeMajorVersionFromPath_any_position (a b : list string)
    (v : string) :
  Forall plain a -> Forall plain b ->
  isVNPart v = true -> has_byte slash v = false ->
  fst (removeMajorVersionFromPath (strings.Join (a ++ v :: b) "/"))
  = (strings.Join (a ++ b) "/"
     ++ (match b with
         | [] => if strings.HasSuffix v quote then String quote "" else ""
         | _ :: _ => ""
         end))%string.
Proof.
  intros Ha Hb Hv Hs. rewrite removeMajorVersionFromPath_eq. cbn [fst].
  now apply stripped_one_part.
Qed.

Lemma Join_length_sum (l : list string) :
  l <> [] ->
  (slen (strings.Join l "/") + 1
   = list_sum (map (fun p => slen p + 1) l))%nat.
Proof.
  induction l as [|e l IH]; intros Hne; [congruence|].
  destruct l as [|e' l].
  - change (strings.Join [e] "/") with e.
    cbn [map list_sum fold_right]. lia.
  - destruct (Join_length_cons e (e' :: l)) as (_ & _ & Heq).
    rewrite (Heq ltac:(discriminate)).
    specialize (IH ltac:(discriminate)).
    change (map (fun p => slen p + 1) (e :: e' :: l))%nat
      with ((slen e + 1) :: map (fun p => slen p + 1) (e' :: l))%nat.
    unfold list_sum in *. cbn [fold_right]. lia.
Qed.

(** X9: dropping one version part from among other parts removes its bytes
    and one separator; when it is the last part and ends in a quote, the
    quote that is put back is not counted. *)
Theorem removedCount_one_part (a b : list string) (v : string) :
  Forall plain a -> Forall plain b -> a ++ b <> [] ->
  isVNPart v = true -> has_byte slash v = false ->
  len (strings.Join (a ++ v :: b) "/") <= maxInt ->
  snd (removeMajorVersionFromPath (strings.Join (a ++ v :: b) "/"))
  = len v + 1
    - (match b with
       | [] => if strings.HasSuffix v quote then 1 else 0
       | _ :: _ => 0
       end).
Proof.
  intros Ha Hb Hne Hv Hs Hlen.
  rewrite removed_count by exact Hlen.
  rewrite stripped_one_part by assumption.
  assert (Hfull : (slen (strings.Join (a ++ v :: b) "/")
                   = slen (strings.Join (a ++ b) "/") + slen v + 1)%nat).
  { pose proof (Join_length_sum (a ++ v :: b)) as H1.
    pose proof (Join_length_sum (a ++ b) Hne) as H2.
    specialize (H1 ltac:(destruct a; discriminate)).
    rewrite map_app, list_sum_app in H1, H2.
    change (map (fun p => slen p + 1) (v :: b))%nat
      with ((slen v + 1) :: map (fun p => slen p + 1) b)%nat in H1.
    unfold list_sum in *. cbn [fold_right] in H1. lia. }
  unfold len, slen in *. rewrite slength_app, Hfull.
  destruct b as [|e b];
    [destruct (strings.HasSuffix v quote)|]; cbn [String.length]; lia.
Qed.

(** ** More about the resolver: loading the sources *)

Lemma map_lookup_store_same (m : list (string * string)) (k v : string) :
  map_lookup (map_store m k v) k = Some v.
Proof.
  induction m as [|[k' v'] m IH]; cbn [map_store map_lookup].
  - now rewrite String.eqb_refl.
  - destruct (String.eqb k' k) eqn:Hk; cbn [map_lookup].
    + now rewrite String.eqb_refl.
    + now rewrite Hk.
Qed.

Lemma map_lookup_store_other (m : list (string * string)) (k v k0 : string) :
  k0 <> k -> map_lookup (map_store m k v) k0 = map_lookup m k0.
Proof.
  intros Hne.
  induction m as [|[k' v'] m IH]; cbn [map_store map_lookup].
  - destruct (String.eqb k k0) eqn:Hk; [|reflexivity].
    apply String.eqb_eq in Hk. congruence.
  - destruct (String.eqb k' k) eqn:Hk; cbn [map_lookup].
    + apply String.eqb_eq in Hk. subst k'.
      destruct (String.eqb k k0) eqn:Hk0; [|reflexivity].
      apply String.eqb_eq in Hk0. congruence.
    + destruct (String.eqb k' k0); [reflexivity | exact IH].
Qed.

Section Loading.

Context {E : Env}.

Lemma loadFileContents_ok (fpath : list string) :
  forall m0 st m st',
    loadFileContents fpath m0 st = (Ok m, st') ->
    (forall k, In k fpath ->
               exists d, ReadFile k = Ok d /\ map_lookup m k = Some d)
    /\ (forall k, ~ In k fpath -> map_lookup m k = map_lookup m0 k)
    /\ self st' = self st
    /\ trace st' = rev (map EvReadFile fpath) ++ trace st.
Proof.
  induction fpath as [|fp rest IH]; intros m0 st m st' Hload.
  - cbn in Hload. injection Hload as <- <-.
    repeat split; try reflexivity. intros k [].
  - cbn [loadFileContents] in Hload.
    destruct (ReadFile fp) as [d|err] eqn:Hread; [|discriminate Hload].
    destruct (IH _ _ _ _ Hload) as (Hin & Hout & Hself & Htr).
    split; [|split; [|split]].
    + intros k Hk.
      destruct (in_dec string_dec k rest) as [Hr|Hr]; [now apply Hin|].
      destruct Hk as [<-|Hk]; [|contradiction].
      exists d. split; [exact Hread|].
      rewrite (Hout fp Hr). apply map_lookup_store_same.
    + intros k Hk.
      rewrite Hout by (intros H; apply Hk; now right).
      apply map_lookup_store_other. intros ->. apply Hk. now left.
    + exact Hself.
    + rewrite Htr. cbn [map rev log trace]. now rewrite <- app_assoc.
Qed.

(** X10: when [loadFileContents] succeeds, the map holds under every path
    given the content read from it, and nothing under any other key. *)
Theorem loadFileContents_holds_every_file (fpath : list string)
    (st st' : State) (m : list (string * string)) :
  loadFileContents fpath [] st = (Ok m, st') ->
  forall k,
    (In k fpath -> exists d, ReadFile k = Ok d /\ map_lookup m k = Some d)
    /\ (~ In k fpath -> map_lookup m k = None).
Proof.
  intros Hload k.
  destruct (loadFileContents_ok fpath [] st m st' Hload) as (Hin & Hout & _).
  split; [apply Hin | apply Hout].
Qed.

(** X11: when [loadFileContents] succeeds, it has read every path once, in
    the order given, and nothing else. *)
Theorem loadFileContents_reads_in_order (fpath : list string)
    (m0 : list (string * string)) (st st' : State)
    (m : list (string * string)) :
  loadFileContents fpath m0 st = (Ok m, st') ->
  trace st' = rev (map EvReadFile fpath) ++ trace st.
Proof.
  intros Hload.
  now destruct (loadFileContents_ok fpath m0 st m st' Hload) as (_ & _ & _ & H).
Qed.

Lemma loadFileContents_first_error (a b : list string)
    (fp : string) (e : error) (m0 : list (string * string)) (st : State) :
  Forall (fun k => is_ok (ReadFile k) = true) a ->
  ReadFile fp = Err e ->
  loadFileContents (a ++ fp :: b) m0 st
  = (Err e, {| self := self st;
               trace := rev (map EvReadFile (a ++ [fp])) ++ trace st |}).
Proof.
  intros Ha Hfp. revert m0 st.
  induction Ha as [|k a Hk Ha IH]; intros m0 st.
  - cbn [app loadFileContents]. rewrite Hfp. reflexivity.
  - cbn [app loadFileContents].
    destruct (ReadFile k) as [d|err]; [|discriminate Hk].
    rewrite IH. cbn [log self trace map rev].
    now rewrite <- !app_assoc.
Qed.

(** X12: [loadFileContents] stops at the first file that cannot be read: it
    returns the error of that file and reads none of the files after
    it. *)
Theorem loadFileContents_stops_at_first_error (a b : list string)
    (fp : string) (e : error) (m0 : list (string * string)) (st : State) :
  Forall (fun k => is_ok (ReadFile k) = true) a ->
  ReadFile fp = Err e ->
  loadFileContents (a ++ fp :: b) m0 st
  = (Err e, {| self := self st;
               trace := rev (map EvReadFile (a ++ [fp])) ++ trace st |}).
Proof. apply loadFileContents_first_error. Qed.

(** X13: when [loadPackageSources] succeeds, the keys of its map are exactly
    the Go files of the package joined to the source directory, each with
    the content read from it. *)
Theorem loadPackageSources_keys (ctx : Context) (packagePath srcDir : string)
    (st st' : State) (m : list (string * string)) :
  loadPackageSources ctx packagePath srcDir st = (Ok m, st') ->
  exists goFiles,
    ctx_Import ctx packagePath srcDir = Ok goFiles
    /\ (forall f, In f goFiles ->
          exists d, ReadFile (filepath_Join [srcDir; f]) = Ok d
                    /\ map_lookup m (filepath_Join [srcDir; f]) = Some d)
    /\ (forall k d, map_lookup m k = Some d ->
          exists f, In f goFiles /\ k = filepath_Join [srcDir; f]).
Proof.
  unfold loadPackageSources. intros Hload.
  destruct (ctx_Import ctx packagePath srcDir) as [goFiles|err];
    [|discriminate Hload].
  exists goFiles. split; [reflexivity|].
  destruct (loadFileContents_ok _ _ _ _ _ Hload) as (Hin & Hout & _).
  split.
  - intros f Hf. apply Hin.
    apply (in_map (fun f => filepath_Join [srcDir; f])). exact Hf.
  - intros k d Hk.
    destruct (in_dec string_dec k
                (map (fun f => filepath_Join [srcDir; f]) goFiles)) as [Hi|Hi].
    + apply in_map_iff in Hi. destruct Hi as (f & <- & Hf). now exists f.
    + rewrite (Hout k Hi) in Hk. discriminate Hk.
Qed.


End Loading.

(** ** More about the resolver: parsing and rewriting *)

Section Parsing.

Context {E : Env}.

Lemma rewrite_imports_spec (imports : list string) :
  forall st,
    rewrite_imports imports st
    = (map (fun v => fst (removeMajorVersionFromPath v)) imports,
       {| self := self st;
          trace := rev (map EvRewrite imports) ++ trace st |}).
Proof.
  induction imports as [|v rest IH]; intros st.
  - destruct st. reflexivity.
  - cbn [rewrite_imports map rev].
    destruct (removeMajorVersionFromPath v) as [r n] eqn:Hr.
    rewrite IH. cbn [fst log self trace].
    now rewrite <- app_assoc.
Qed.

Lemma parse_files_ok (fileSrcs : list (string * string)) :
  forall acc st files st',
    parse_files fileSrcs acc st = (Ok files, st') ->
    exists parsed,
      Forall2 (fun fs astf => ParseFile (fst fs) (snd fs) = Ok astf)
              fileSrcs parsed
      /\ files = acc ++ map strip_imports parsed.
Proof.
  induction fileSrcs as [|[fpath src] rest IH]; intros acc st files st' Hp.
  - cbn in Hp. injection Hp as <- <-. exists []. split; [constructor|].
    cbn [map]. now rewrite app_nil_r.
  - cbn [parse_files] in Hp.
    destruct (ParseFile fpath src) as [astf|err] eqn:Hparse;
      [|discriminate Hp].
    rewrite rewrite_imports_spec in Hp.
    destruct (IH _ _ _ _ Hp) as (parsed & Hall & ->).
    exists (astf :: parsed). split; [constructor; assumption|].
    cbn [map]. rewrite <- app_assoc. reflexivity.
Qed.

(** X15: when [parse_files] succeeds, it hands on one file per source, in the
    order of the loop, each as the parser returned it except that every
    import literal is replaced by what the stripper makes of it. *)
Theorem parse_files_rewrites_imports (fileSrcs : list (string * string))
    (st st' : State) (files : list (File Syntax)) :
  parse_files fileSrcs [] st = (Ok files, st') ->
  Forall2
    (fun fs f =>
       exists astf,
         ParseFile (fst fs) (snd fs) = Ok astf
         /\ Imports f
            = map (fun v => fst (removeMajorVersionFromPath v)) (Imports astf)
         /\ Decls f = Decls astf)
    fileSrcs files.
Proof.
  intros Hp.
  destruct (parse_files_ok fileSrcs [] st files st' Hp) as (parsed & Hall & ->).
  cbn [app]. clear Hp.
  induction Hall as [|fs astf fileSrcs parsed Hfs Hall IH]; cbn [map].
  - constructor.
  - constructor; [|exact IH].
    exists astf. split; [exact Hfs|]. split; reflexivity.
Qed.

(** X16: no import literal that [parse_files] hands on has a part that
    [isVNPart] accepts. *)
Theorem parse_files_leaves_no_version_part (fileSrcs : list (string * string))
    (st st' : State) (files : list (File Syntax)) :
  parse_files fileSrcs [] st = (Ok files, st') ->
  Forall
    (fun f =>
       Forall (fun v => Forall (fun p => isVNPart p = false)
                          (strings.Split v slash))
              (Imports f))
    files.
Proof.
  intros Hp.
  destruct (parse_files_ok fileSrcs [] st files st' Hp) as (parsed & _ & ->).
  cbn [app]. apply Forall_forall. intros f Hf.
  apply in_map_iff in Hf. destruct Hf as (astf & <- & _).
  unfold strip_imports. cbn [Imports].
  apply Forall_forall. intros v Hv.
  apply in_map_iff in Hv. destruct Hv as (v0 & <- & _).
  apply stripped_no_version_part.
Qed.

Lemma filter_ParseFile_rewrites (l : list string) :
  filter is_ParseFile (rev (map EvRewrite l)) = [].
Proof.
  induction l as [|v l IH]; [reflexivity|].
  cbn [map rev]. rewrite filter_app, IH. reflexivity.
Qed.

(** X17: [parse_files] stops at the first file that does not parse: it
    returns the parser's error and calls the parser on no file after
    it. *)
Theorem parse_files_stops_at_first_error (a b : list (string * string))
    (fpath src : string) (e : error) (acc : list (File Syntax))
    (st : State) :
  Forall (fun fs => is_ok (ParseFile (fst fs) (snd fs)) = true) a ->
  ParseFile fpath src = Err e ->
  fst (parse_files (a ++ (fpath, src) :: b) acc st) = Err e
  /\ exists new,
       trace (snd (parse_files (a ++ (fpath, src) :: b) acc st))
       = new ++ trace st
       /\ filter is_ParseFile new
          = rev (map (fun fs => EvParseFile (fst fs)) (a ++ [(fpath, src)])).
Proof.
  intros Ha He. revert acc st.
  induction Ha as [|[fp0 src0] a Hk Ha IH]; intros acc st.
  - cbn [app parse_files]. rewrite He. cbn [fst snd].
    split; [reflexivity|]. exists [EvParseFile fpath]. split; reflexivity.
  - cbn [app parse_files]. cbn [fst snd] in Hk.
    destruct (ParseFile fp0 src0) as [astf|err]; [|discriminate Hk].
    rewrite rewrite_imports_spec.
    match goal with
    | |- context [parse_files _ ?acc' ?st'] =>
        destruct (IH acc' st') as (Hres & new & Htr & Hf)
    end.
    split; [exact Hres|].
    exists (new ++ rev (map EvRewrite (Imports astf)) ++ [EvParseFile fp0]).
    split.
    + rewrite Htr. cbn [trace log]. rewrite <- !app_assoc. reflexivity.
    + rewrite !filter_app, Hf, filter_ParseFile_rewrites.
      cbn [filter is_ParseFile app map rev fst]. reflexivity.
Qed.

End Parsing.

(** ** More about the resolver: Import *)

Section Importing.

Context {E : Env}.

Lemma trace_log (e : Event) (st : State) : trace (log e st) = e :: trace st.
Proof. reflexivity. Qed.

Lemma ensure_stdImporter_facts (st : State) :
  let h := fst (ensure_stdImporter st) in
  let st1 := snd (ensure_stdImporter st) in
  Ctx (self st1) = Ctx (self st)
  /\ stdImporter (self st1) = Some h
  /\ trace st1
     = match stdImporter (self st) with
       | Some _ => []
       | None => [EvForCompiler h]
       end ++ trace st.
Proof.
  unfold ensure_stdImporter.
  destruct (stdImporter (self st)) as [h|] eqn:Hh; cbn [fst snd self trace Ctx stdImporter].
  - repeat split. exact Hh.
  - repeat split.
Qed.

Lemma loadFileContents_fst (fpath : list string) :
  forall m st st',
    fst (loadFileContents fpath m st) = fst (loadFileContents fpath m st').
Proof.
  induction fpath as [|fp rest IH]; intros m st st'; [reflexivity|].
  cbn [loadFileContents]. destruct (ReadFile fp); [apply IH | reflexivity].
Qed.

Lemma loadPackageSources_fst (ctx : Context) (p d : string) (st st' : State) :
  fst (loadPackageSources ctx p d st) = fst (loadPackageSources ctx p d st').
Proof.
  unfold loadPackageSources.
  destruct (ctx_Import ctx p d); [apply loadFileContents_fst | reflexivity].
Qed.

Lemma parse_files_fst (fileSrcs : list (string * string)) :
  forall acc st st',
    fst (parse_files fileSrcs acc st) = fst (parse_files fileSrcs acc st').
Proof.
  induction fileSrcs as [|[fpath src] rest IH]; intros acc st st';
    [reflexivity|].
  cbn [parse_files]. destruct (ParseFile fpath src); [|reflexivity].
  rewrite !rewrite_imports_spec. apply IH.
Qed.

(** After the baseline was asked, [Import] only adds calls. *)
Lemma Import_after_baseline (depth : nat) (path : string) (st : State)
    (h : Importer) :
  stdImporter (self st) = Some h ->
  steps (uses h) (log (EvStdImport h path) st) (snd (Import depth path st)).
Proof.
  intros Hh. rewrite Import_unfold. unfold Import_with.
  rewrite (ensure_stdImporter_some st h Hh).
  set (st1 := log (EvStdImport h path) st).
  destruct (std_Import path) as [pkg [e|]]; [|apply steps_refl].
  pose proof (loadPackageSources_steps (Ctx (self st1)) path
                (filepath_Join [GOPATH (Ctx (self st1)); "src"; path])
                st1) as H2.
  destruct (loadPackageSources _ _ _ st1) as [[fileSrcs|err] st2];
    cbn [snd] in H2;
    apply (steps_weaken _ (uses h) _ _ (source_uses h)) in H2;
    [|exact H2].
  pose proof (parse_files_steps (range_order fileSrcs) [] st2) as H3.
  destruct (parse_files _ _ st2) as [[astFiles|err] st3];
    cbn [snd] in H3;
    apply (steps_weaken _ (uses h) _ _ (source_uses h)) in H3;
    [|eapply steps_trans; eassumption].
  assert (H4 : steps (uses h) st1 (log (EvCheck path) st3)).
  { eapply steps_trans; [exact H2|].
    eapply steps_trans; [exact H3|]. now apply steps_log. }
  eapply steps_trans; [exact H4|].
  apply (run_check_steps (uses h) (fun imp => stdImporter imp = Some h)).
  - intros p st' Hst'. now apply nested_steps.
  - destruct H4 as [Hself _]. rewrite Hself. exact Hh.
Qed.

(** X18: [Import] never changes the build context of the instance. *)
Theorem Import_keeps_Ctx (depth : nat) (path : string) (st : State) :
  Ctx (self (snd (Import depth path st))) = Ctx (self st).
Proof.
  rewrite Import_ensure.
  destruct (ensure_stdImporter_facts st) as (Hctx & Hh & _).
  destruct (Import_reuse depth path _ _ Hh) as [Hself _].
  now rewrite Hself.
Qed.

(** X19: the first thing [Import] does with a path is to ask the baseline
    importer for it, after making that importer if the instance had
    none; every other call comes after. *)
Theorem Import_asks_baseline_first (depth : nat) (path : string) (st : State) :
  exists h new,
    stdImporter (self (snd (Import depth path st))) = Some h
    /\ trace (snd (Import depth path st))
       = new ++ EvStdImport h path
             :: match stdImporter (self st) with
                | Some _ => []
                | None => [EvForCompiler h]
                end ++ trace st.
Proof.
  rewrite Import_ensure.
  destruct (ensure_stdImporter_facts st) as (_ & Hh & Htr).
  destruct (Import_after_baseline depth path _ _ Hh) as [Hself (new & Hnew & _)].
  exists (fst (ensure_stdImporter st)), new. split.
  - rewrite Hself. exact Hh.
  - rewrite Hnew, trace_log. now rewrite Htr.
Qed.

(** X20: nothing is cached: whenever the baseline importer fails on a path,
    [Import] lists the package in the source tree, on every call. *)
Theorem Import_lists_sources_every_time (depth : nat) (path : string)
    (st : State) (e : error) :
  snd (std_Import path) = Some e ->
  exists new,
    trace (snd (Import depth path st)) = new ++ trace st
    /\ In (EvCtxImport path
             (filepath_Join [GOPATH (Ctx (self st)); "src"; path])) new.
Proof.
  intros Hstd.
  destruct (ensure_stdImporter_facts st) as (Hctx & Hh & Htr).
  rewrite Import_ensure, Import_unfold. unfold Import_with.
  rewrite (ensure_stdImporter_some _ _ Hh).
  set (h := fst (ensure_stdImporter st)) in *.
  set (st1 := snd (ensure_stdImporter st)) in *.
  set (st2 := log (EvStdImport h path) st1).
  destruct (std_Import path) as [pkg [e'|]]; [|discriminate Hstd].
  change (Ctx (self st2)) with (Ctx (self st1)). rewrite Hctx.
  set (dir := filepath_Join [GOPATH (Ctx (self st)); "src"; path]).
  assert (Hload : steps source (log (EvCtxImport path dir) st2)
                    (snd (loadPackageSources (Ctx (self st)) path dir st2))).
  { unfold loadPackageSources.
    destruct (ctx_Import (Ctx (self st)) path dir);
      [apply loadFileContents_steps | apply steps_refl]. }
  assert (Hrest : exists n,
             trace (snd (let (r, st3) :=
                           loadPackageSources (Ctx (self st)) path dir st2 in
                         match r with
                         | Ok fileSrcs =>
                             let (r0, st4) :=
                               parse_files (range_order fileSrcs) [] st3 in
                             match r0 with
                             | Ok astFiles =>
                                 run_check (nested depth)
                                   (check_Files path astFiles)
                                   (log (EvCheck path) st4)
                             | Err err => (Some (None, Some err), st4)
                             end
                         | Err err => (Some (None, Some err), st3)
                         end))
             = n ++ trace (snd (loadPackageSources (Ctx (self st)) path dir st2))).
  { pose proof (loadPackageSources_steps (Ctx (self st)) path dir st2) as Hs.
    destruct (loadPackageSources _ _ _ st2) as [[fileSrcs|err] st3];
      cbn [snd] in *; [|exists []; reflexivity].
    pose proof (parse_files_steps (range_order fileSrcs) [] st3) as H3.
    destruct (parse_files _ _ st3) as [[astFiles|err] st4]; cbn [snd] in *;
      destruct H3 as [Hself3 (n3 & Ht3 & _)]; [|exists n3; exact Ht3].
    destruct (run_check_steps (uses h) (fun imp => stdImporter imp = Some h)
                (nested depth)
                (fun p st' Hst' => nested_steps depth p st' h Hst')
                (check_Files path astFiles) (log (EvCheck path) st4))
      as [_ (n4 & Ht4 & _)].
    { cbn [log self]. destruct Hs as [Hself2 _].
      rewrite Hself3, Hself2. exact Hh. }
    exists (n4 ++ EvCheck path :: n3).
    rewrite Ht4, trace_log, Ht3.
    rewrite <- app_assoc. reflexivity. }
  destruct Hrest as (n & Hn). destruct Hload as [_ (n2 & Hn2 & _)].
  exists (n ++ n2 ++ EvCtxImport path dir :: EvStdImport h path
            :: match stdImporter (self st) with
               | Some _ => []
               | None => [EvForCompiler h]
               end).
  split.
  - rewrite Hn, Hn2, trace_log. unfold st2. rewrite trace_log, Htr.
    rewrite <- !app_assoc. reflexivity.
  - apply in_or_app. right. apply in_or_app. right. now left.
Qed.

End Importing.

Section Failing.

Context {E : Env}.

Lemma loadFileContents_reads (fpath : list string) :
  forall m st,
    exists read,
      trace (snd (loadFileContents fpath m st))
      = rev (map EvReadFile read) ++ trace st.
Proof.
  induction fpath as [|fp rest IH]; intros m st.
  - exists []. reflexivity.
  - cbn [loadFileContents].
    destruct (ReadFile fp) as [d|err].
    + destruct (IH (map_store m fp d) (log (EvReadFile fp) st)) as (read & Hr).
      exists (fp :: read). rewrite Hr, trace_log. cbn [map rev].
      now rewrite <- app_assoc.
    + exists [fp]. reflexivity.
Qed.

Lemma reads_not_after_load (read : list string) :
  existsb is_after_load (rev (map EvReadFile read)) = false.
Proof.
  induction read as [|fp read IH]; [reflexivity|].
  cbn [map rev]. rewrite existsb_app, IH. reflexivity.
Qed.

(** X21: when the sources of the package cannot be loaded, [Import] returns
    the loader's error and no package, and nothing is parsed, rewritten or
    checked. *)
Theorem Import_load_failure (depth : nat) (path : string) (st : State)
    (e err : error) :
  snd (std_Import path) = Some e ->
  fst (loadPackageSources (Ctx (self st)) path
         (filepath_Join [GOPATH (Ctx (self st)); "src"; path]) st)
  = Err err ->
  fst (Import depth path st) = Some (None, Some err)
  /\ exists new,
       trace (snd (Import depth path st)) = new ++ trace st
       /\ existsb is_after_load new = false.
Proof.
  intros Hstd Hload.
  destruct (ensure_stdImporter_facts st) as (Hctx & Hh & Htr).
  rewrite Import_ensure, Import_unfold. unfold Import_with.
  rewrite (ensure_stdImporter_some _ _ Hh).
  set (h := fst (ensure_stdImporter st)) in *.
  set (st1 := snd (ensure_stdImporter st)) in *.
  set (st2 := log (EvStdImport h path) st1).
  destruct (std_Import path) as [pkg [e'|]]; [|discriminate Hstd].
  change (Ctx (self st2)) with (Ctx (self st1)). rewrite Hctx.
  set (dir := filepath_Join [GOPATH (Ctx (self st)); "src"; path]) in *.
  rewrite (loadPackageSources_fst _ _ _ st st2) in Hload.
  assert (Hreads : exists read,
             trace (snd (loadPackageSources (Ctx (self st)) path dir st2))
             = rev (map EvReadFile read) ++ EvCtxImport path dir :: trace st2).
  { unfold loadPackageSources.
    destruct (ctx_Import (Ctx (self st)) path dir) as [goFiles|err0].
    - destruct (loadFileContents_reads
                  (map (fun f => filepath_Join [dir; f]) goFiles) []
                  (log (EvCtxImport path dir) st2)) as (read & Hr).
      exists read. exact Hr.
    - exists []. reflexivity. }
  destruct Hreads as (read & Hr).
  destruct (loadPackageSources (Ctx (self st)) path dir st2)
    as [[fileSrcs|err'] st3]; cbn [fst snd] in *; [discriminate Hload|].
  injection Hload as ->. split; [reflexivity|].
  exists (rev (map EvReadFile read) ++ EvCtxImport path dir
            :: EvStdImport h path
            :: match stdImporter (self st) with
               | Some _ => []
               | None => [EvForCompiler h]
               end).
  split.
  - rewrite Hr. unfold st2. rewrite trace_log, Htr.
    rewrite <- !app_assoc. reflexivity.
  - rewrite existsb_app, reads_not_after_load.
    destruct (stdImporter (self st)); reflexivity.
Qed.

(** X22: when a source file does not parse, [Import] returns the parser's
    error and no package, and the checker is not called. *)
Theorem Import_parse_failure (depth : nat) (path : string) (st : State)
    (e err : error) (fileSrcs : list (string * string)) :
  snd (std_Import path) = Some e ->
  fst (loadPackageSources (Ctx (self st)) path
         (filepath_Join [GOPATH (Ctx (self st)); "src"; path]) st)
  = Ok fileSrcs ->
  fst (parse_files (range_order fileSrcs) [] st) = Err err ->
  fst (Import depth path st) = Some (None, Some err)
  /\ exists new,
       trace (snd (Import depth path st)) = new ++ trace st
       /\ existsb is_Check new = false.
Proof.
  intros Hstd Hload Hparse.
  destruct (ensure_stdImporter_facts st) as (Hctx & Hh & Htr).
  rewrite Import_ensure, Import_unfold. unfold Import_with.
  rewrite (ensure_stdImporter_some _ _ Hh).
  set (h := fst (ensure_stdImporter st)) in *.
  set (st1 := snd (ensure_stdImporter st)) in *.
  set (st2 := log (EvStdImport h path) st1).
  destruct (std_Import path) as [pkg [e'|]]; [|discriminate Hstd].
  change (Ctx (self st2)) with (Ctx (self st1)). rewrite Hctx.
  set (dir := filepath_Join [GOPATH (Ctx (self st)); "src"; path]) in *.
  rewrite (loadPackageSources_fst _ _ _ st st2) in Hload.
  pose proof (loadPackageSources_steps (Ctx (self st)) path dir st2) as H2.
  destruct (loadPackageSources (Ctx (self st)) path dir st2)
    as [[fileSrcs'|err'] st3]; cbn [fst snd] in *; [|discriminate Hload].
  injection Hload as ->.
  rewrite (parse_files_fst _ _ st st3) in Hparse.
  pose proof (parse_files_steps (range_order fileSrcs) [] st3) as H3.
  destruct (parse_files (range_order fileSrcs) [] st3)
    as [[astFiles|err'] st4]; cbn [fst snd] in *; [discriminate Hparse|].
  injection Hparse as ->. split; [reflexivity|].
  destruct H2 as [_ (n2 & Ht2 & Hf2)]. destruct H3 as [_ (n3 & Ht3 & Hf3)].
  exists (n3 ++ n2 ++ EvStdImport h path
            :: match stdImporter (self st) with
               | Some _ => []
               | None => [EvForCompiler h]
               end).
  split.
  - rewrite Ht3, Ht2. unfold st2. rewrite trace_log, Htr.
    rewrite <- !app_assoc. reflexivity.
  - rewrite !existsb_app, (source_no_check n3 Hf3), (source_no_check n2 Hf2).
    destruct (stdImporter (self st)); reflexivity.
Qed.

End Failing.

(** ** The version number and the range of int64 *)

Lemma decimal_value_mono (l : list rune) :
  forall n n', Forall digit_rune l -> 0 <= n <= n' ->
               n <= decimal_value n l <= decimal_value n' l.
Proof.
  induction l as [|c l IH]; intros n n' Hall Hn; [cbn; lia|].
  inversion Hall as [|? ? Hc Hl]; subst. unfold digit_rune in Hc.
  cbn [decimal_value].
  destruct (IH (n * 10 + (c - 48)) (n' * 10 + (c - 48)) Hl ltac:(lia)).
  lia.
Qed.

(** On digits, the loop of [ParseUint] gives the number they spell, or a
    range error when it leaves 64 bits. *)
Lemma ParseUint_loop_value (l : list rune) :
  forall n, Forall digit_rune l -> 0 <= n <= strconv.maxUint64 ->
    strconv.ParseUint_loop l n
    = if decimal_value n l <=? strconv.maxUint64
      then Ok (decimal_value n l)
      else Err "value out of range".
Proof.
  unfold strconv.maxUint64.
  change (2 ^ 64 - 1) with 18446744073709551615.
  induction l as [|c l IH]; intros n Hall Hn.
  - cbn [strconv.ParseUint_loop decimal_value].
    replace (n <=? 18446744073709551615) with true
      by (symmetry; apply Z.leb_le; lia).
    reflexivity.
  - inversion Hall as [|? ? Hc Hl]; subst. unfold digit_rune in Hc.
    cbn [strconv.ParseUint_loop decimal_value].
    replace ((48 <=? c) && (c <=? 57)) with true
      by (symmetry; apply andb_true_intro; split; apply Z.leb_le; lia).
    unfold strconv.maxUint64, wrap_uint64.
    change ((2 ^ 64 - 1) / 10 + 1) with 1844674407370955162.
    change (2 ^ 64 - 1) with 18446744073709551615.
    change (2 ^ 64) with 18446744073709551616.
    pose proof (decimal_value_mono l (n * 10 + (c - 48)) (n * 10 + (c - 48))
                  Hl ltac:(lia)) as [Hlow _].
    destruct (Z.ltb_spec n 1844674407370955162) as [Hcut|Hcut].
    + rewrite geb_false by lia.
      rewrite (Z.mod_small (n * 10)) by lia.
      destruct (Z.leb_spec (n * 10 + (c - 48)) 18446744073709551615)
        as [Hfit|Hover].
      * rewrite (Z.mod_small (n * 10 + (c - 48))) by lia.
        replace (n * 10 + (c - 48) <? n * 10) with false
          by (symmetry; apply Z.ltb_ge; lia).
        rewrite gtb_false by lia. cbn [orb].
        apply IH; [exact Hl | lia].
      * (* the sum wraps around and comes out below the product *)
        replace ((n * 10 + (c - 48)) mod 18446744073709551616)
          with (n * 10 + (c - 48) - 18446744073709551616).
        2:{ apply Z.mod_unique with (q := 1); lia. }
        replace (n * 10 + (c - 48) - 18446744073709551616 <? n * 10) with true
          by (symmetry; apply Z.ltb_lt; lia).
        cbn [orb].
        replace (decimal_value (n * 10 + (c - 48)) l <=? 18446744073709551615)
          with false by (symmetry; apply Z.leb_gt; lia).
        reflexivity.
    + replace (n >=? 1844674407370955162) with true
        by (symmetry; rewrite Z.geb_leb; apply Z.leb_le; lia).
      replace (decimal_value (n * 10 + (c - 48)) l <=? 18446744073709551615)
        with false by (symmetry; apply Z.leb_gt; lia).
      reflexivity.
Qed.

(** On digits, [ParseInt] succeeds exactly when the number fits int64. *)
Lemma ParseInt_digits_value (d : rune) (t : list rune) :
  digit_rune d -> Forall digit_rune t ->
  strconv.ParseInt (d :: t)
  = if decimal_value 0 (d :: t) <=? maxInt
    then Ok (decimal_value 0 (d :: t))
    else Err "value out of range".
Proof.
  intros Hd Ht. unfold strconv.ParseInt.
  destruct (digit_rune_cases d Hd) as (_ & _ & _ & _ & _ & _ & -> & ->).
  unfold strconv.ParseUint.
  rewrite ParseUint_loop_value
    by (try (now constructor); unfold strconv.maxUint64;
        change (2 ^ 64 - 1) with 18446744073709551615; lia).
  pose proof (decimal_value_mono (d :: t) 0 0 (Forall_cons _ Hd Ht)
                ltac:(lia)) as [Hlow _].
  unfold strconv.maxUint64, maxInt.
  change (2 ^ 64 - 1) with 18446744073709551615.
  change (2 ^ 63 - 1) with 9223372036854775807.
  change (2 ^ 63) with 9223372036854775808.
  destruct (Z.leb_spec (decimal_value 0 (d :: t)) 9223372036854775807)
    as [Hfit|Hover].
  - replace (decimal_value 0 (d :: t) <=? 18446744073709551615) with true
      by (symmetry; apply Z.leb_le; lia).
    cbn [bind negb andb]. rewrite geb_false by lia. reflexivity.
  - destruct (Z.leb_spec (decimal_value 0 (d :: t)) 18446744073709551615);
      [|reflexivity].
    cbn [bind negb andb].
    replace (decimal_value 0 (d :: t) >=? 9223372036854775808) with true
      by (symmetry; rewrite Z.geb_leb; apply Z.leb_le; lia).
    reflexivity.
Qed.

Lemma Fscanf_v_int_digits_value (d : rune) (t : list rune) :
  digit_rune d -> Forall digit_rune t ->
  1 + Z.of_nat (List.length (d :: t)) < fmt.hugeWid ->
  is_ok (fmt.Fscanf_v_int (118 :: d :: t))
  = (decimal_value 0 (d :: t) <=? maxInt).
Proof.
  intros Hd Ht Hlim.
  unfold fmt.Fscanf_v_int, fmt.advance_literal, fmt.mustReadRune.
  change (fmt.getRune (fmt.newScanState (118 :: d :: t)))
    with (118, fmt.advanced (fmt.newScanState (118 :: d :: t)) (d :: t)).
  cbn [bind]. change (118 =? fmt.eof) with false. cbn [bind].
  change (negb (118 =? 118)) with false. cbv iota.
  set (s1 := fmt.advanced (fmt.newScanState (118 :: d :: t)) (d :: t)).
  cbn [bind].
  rewrite (SkipSpace_digit s1 d t eq_refl Hd Hlim). cbn [bind].
  set (s2 := fmt.clearBuf (fmt.setArgLimit s1)).
  assert (Hlim2 : fmt.count s2 + Z.of_nat (List.length (d :: t)) < fmt.argLimit s2)
    by exact Hlim.
  unfold fmt.scanInt.
  rewrite (SkipSpace_digit s2 d t eq_refl Hd Hlim2). cbn [bind].
  rewrite (notEOF_digit s2 d t eq_refl Hd Hlim2). cbn [bind].
  rewrite (accept_sign_digit s2 d t eq_refl Hd Hlim2).
  destruct (scanNumber_digits s2 d t eq_refl Hd Ht Hlim2) as (s3 & ->).
  cbn [bind]. change (fmt.buf s2 ++ d :: t) with (d :: t).
  rewrite (ParseInt_digits_value d t Hd Ht).
  pose proof (decimal_value_mono (d :: t) 0 0 (Forall_cons _ Hd Ht)
                ltac:(lia)) as [Hlow _].
  destruct (Z.leb_spec (decimal_value 0 (d :: t)) maxInt) as [Hfit|Hover];
    [|reflexivity].
  cbn [bind]. change (64 - fmt.intBits) with 0.
  rewrite Z.shiftl_0_r, Z.shiftr_0_r.
  rewrite wrap_int64_small by (unfold maxInt in *; lia).
  rewrite Z.eqb_refl. reflexivity.
Qed.

(** X23: [v] followed by decimal digits only is a version part exactly
    when the number the digits spell fits int64; this holds for any run of
    digits the scanner reads in full, that is, shorter than its limit of
    2^30 runes. *)
Theorem isVNPart_digits_iff_int64 (digits : string) :
  allDigits digits = true ->
  (1 <= String.length digits)%nat ->
  Z.of_nat (String.length digits) + 1 < fmt.hugeWid ->
  isVNPart (String "v" digits) = (digits_value digits <=? maxInt).
Proof.
  intros Hall Hlen Hlim.
  unfold isVNPart, NewReader, digits_value. cbn [runesFrom].
  rewrite Decode_ascii by (vm_compute; reflexivity).
  change (Z.to_nat 1 - 1)%nat with O. change (byteval "v"%char) with 118.
  destruct (runesFrom_digits digits Hall) as [-> Hf].
  assert (Hl : List.length (map byteval (list_ascii_of_string digits))
               = String.length digits).
  { rewrite length_map. clear. induction digits; simpl; congruence. }
  destruct (map byteval (list_ascii_of_string digits)) as [|d t].
  - simpl in Hl. lia.
  - inversion Hf; subst. apply Fscanf_v_int_digits_value; try assumption.
    unfold rune in *. rewrite Hl. lia.
Qed.

Lemma isVNPart_digits_iff_int64_witness :
  isVNPart (String "v" "9223372036854775807") = true
  /\ isVNPart (String "v" "9223372036854775808") = false.
Proof.
  split.
  - apply (isVNPart_digits_iff_int64 "9223372036854775807");
      [vm_compute; reflexivity | simpl; lia | vm_compute; reflexivity].
  - apply (isVNPart_digits_iff_int64 "9223372036854775808");
      [vm_compute; reflexivity | simpl; lia | vm_compute; reflexivity].
Defined.

(** ** What may follow a version part *)

Lemma decode_tail_app_ascii (sz lo hi n s0 b1 b2 b3 b1' b2' b3' : Z) :
  1 <= n -> 2 <= sz <= 4 -> 128 <= lo ->
  (1 < n -> b1' = b1) -> (n = 1 -> b1' < 128) ->
  (2 < n -> b2' = b2) -> (n = 2 -> b2' < 128) ->
  (3 < n -> b3' = b3) -> (n = 3 -> b3' < 128) ->
  decode_tail sz lo hi (n + 1) s0 b1' b2' b3'
  = decode_tail sz lo hi n s0 b1 b2 b3.
Proof.
  intros Hn Hsz Hlo H1 H1' H2 H2' H3 H3'.
  unfold decode_tail, utf8.locb.
  destruct (Z.ltb_spec n sz) as [Hlt|Hge].
  - destruct (Z.ltb_spec (n + 1) sz); [reflexivity|].
    assert (Hsz' : sz = n + 1) by lia.
    destruct (Z.eq_dec n 1) as [->|Hn1].
    + replace (b1' <? lo) with true
        by (symmetry; apply Z.ltb_lt; specialize (H1' eq_refl); lia).
      reflexivity.
    + rewrite (H1 ltac:(lia)).
      destruct ((b1 <? lo) || (hi <? b1)); [reflexivity|].
      replace (sz <=? 2) with false by (symmetry; apply Z.leb_gt; lia).
      destruct (Z.eq_dec n 2) as [->|Hn2].
      * replace (b2' <? 128) with true
          by (symmetry; apply Z.ltb_lt; specialize (H2' eq_refl); lia).
        reflexivity.
      * rewrite (H2 ltac:(lia)).
        destruct ((b2 <? 128) || (utf8.hicb <? b2)); [reflexivity|].
        replace (sz <=? 3) with false by (symmetry; apply Z.leb_gt; lia).
        assert (n = 3) by lia. subst n.
        replace (b3' <? 128) with true
          by (symmetry; apply Z.ltb_lt; specialize (H3' eq_refl); lia).
        reflexivity.
  - replace (n + 1 <? sz) with false by (symmetry; apply Z.ltb_ge; lia).
    rewrite (H1 ltac:(lia)).
    destruct ((b1 <? lo) || (hi <? b1)); [reflexivity|].
    destruct (Z.leb_spec sz 2); [reflexivity|].
    rewrite (H2 ltac:(lia)).
    destruct ((b2 <? 128) || (utf8.hicb <? b2)); [reflexivity|].
    destruct (Z.leb_spec sz 3); [reflexivity|].
    rewrite (H3 ltac:(lia)). reflexivity.
Qed.

Lemma at_app_first (s : string) (c : byte) (t : string) (i : nat) :
  Z.of_nat i = len s -> utf8.at_ (s ++ String c t) i = byteval c.
Proof.
  unfold utf8.at_. revert i.
  induction s as [|a s IH]; intros i Hi.
  - unfold len in Hi. simpl in Hi.
    assert (i = O) by lia. subst i. reflexivity.
  - rewrite len_cons in Hi. pose proof (len_nonneg s).
    destruct i as [|i]; [lia|].
    cbn [append String.get]. apply IH. lia.
Qed.

(** What is decoded at the start of a string does not depend on what
    follows the string, when that begins with an ASCII byte. *)
Lemma Decode_app_ascii (s : string) (c : byte) (t : string) :
  s <> "" -> byteval c < 128 ->
  utf8.DecodeRuneInString (s ++ String c t) = utf8.DecodeRuneInString s.
Proof.
  intros Hne Hc.
  assert (Hn : 1 <= len s).
  { destruct s; [congruence|]. rewrite len_cons. pose proof (len_nonneg s). lia. }
  rewrite !Decode_unfold.
  rewrite len_app, len_cons. pose proof (len_nonneg t) as Ht.
  replace (len s + (len t + 1) <? 1) with false
    by (symmetry; apply Z.ltb_ge; lia).
  replace (len s <? 1) with false by (symmetry; apply Z.ltb_ge; lia).
  rewrite (at_app_lt s (String c t) 0) by (simpl; lia).
  cbv zeta.
  destruct (utf8.first (utf8.at_ s 0) >=? utf8.as_) eqn:Hx; [reflexivity|].
  destruct (first_multibyte _ Hx) as [Hsz Hlo].
  set (sz := Z.land (utf8.first (utf8.at_ s 0)) 7) in *.
  set (lo := fst (utf8.acceptRanges (Z.shiftr (utf8.first (utf8.at_ s 0)) 4))) in *.
  set (hi := snd (utf8.acceptRanges (Z.shiftr (utf8.first (utf8.at_ s 0)) 4))).
  (* only whether the string is long enough depends on the length *)
  assert (Hlen : forall n b1 b2 b3, sz <= n ->
             decode_tail sz lo hi n (utf8.at_ s 0) b1 b2 b3
             = decode_tail sz lo hi sz (utf8.at_ s 0) b1 b2 b3).
  { intros n b1 b2 b3 Hge. unfold decode_tail.
    replace (n <? sz) with false by (symmetry; apply Z.ltb_ge; lia).
    replace (sz <? sz) with false by (symmetry; apply Z.ltb_ge; lia).
    reflexivity. }
  destruct (Z.le_gt_cases sz (len s)) as [Hfit|Hshort].
  - rewrite (Hlen (len s + (len t + 1))) by lia.
    rewrite (Hlen (len s)) by exact Hfit.
    unfold decode_tail.
    replace (sz <? sz) with false by (symmetry; apply Z.ltb_ge; lia).
    rewrite (at_app_lt s (String c t) 1) by (simpl; lia).
    destruct ((utf8.at_ s 1 <? lo) || (hi <? utf8.at_ s 1)); [reflexivity|].
    destruct (Z.leb_spec sz 2); [reflexivity|].
    rewrite (at_app_lt s (String c t) 2) by (simpl; lia).
    destruct ((utf8.at_ s 2 <? utf8.locb) || (utf8.hicb <? utf8.at_ s 2));
      [reflexivity|].
    destruct (Z.leb_spec sz 3); [reflexivity|].
    rewrite (at_app_lt s (String c t) 3) by (simpl; lia).
    reflexivity.
  - (* the string is too short: as with one more byte only *)
    transitivity (decode_tail sz lo hi (len s + 1) (utf8.at_ s 0)
                    (utf8.at_ (s ++ String c t) 1)
                    (utf8.at_ (s ++ String c t) 2)
                    (utf8.at_ (s ++ String c t) 3)).
    + destruct (Z.le_gt_cases sz (len s + 1)) as [Hone|Hmore].
      * rewrite (Hlen (len s + (len t + 1))) by lia.
        rewrite (Hlen (len s + 1)) by lia. reflexivity.
      * unfold decode_tail.
        replace (len s + 1 <? sz) with true by (symmetry; apply Z.ltb_lt; lia).
        destruct (Z.ltb_spec (len s + (len t + 1)) sz) as [|Hge];
          [reflexivity|].
        (* two bytes short at least: the byte after the string is looked
           at, and is no continuation byte *)
        assert (Hat : forall i, Z.of_nat i = len s ->
                   utf8.at_ (s ++ String c t) i < 128)
          by (intros i Hi; rewrite at_app_first by exact Hi; exact Hc).
        destruct (Z.eq_dec (len s) 1) as [Hl1|Hl1].
        -- pose proof (Hat 1%nat ltac:(simpl; lia)) as H1.
           replace (utf8.at_ (s ++ String c t) 1 <? lo) with true
             by (symmetry; apply Z.ltb_lt; lia).
           reflexivity.
        -- assert (Hl2 : len s = 2) by lia.
           pose proof (Hat 2%nat ltac:(simpl; lia)) as H2.
           destruct ((utf8.at_ (s ++ String c t) 1 <? lo)
                     || (hi <? utf8.at_ (s ++ String c t) 1)); [reflexivity|].
           replace (sz <=? 2) with false by (symmetry; apply Z.leb_gt; lia).
           replace (utf8.at_ (s ++ String c t) 2 <? utf8.locb) with true
             by (symmetry; apply Z.ltb_lt; unfold utf8.locb; lia).
           reflexivity.
    + apply decode_tail_app_ascii; try assumption; intros H.
      * apply at_app_lt. simpl. lia.
      * rewrite at_app_first by (simpl; lia). exact Hc.
      * apply at_app_lt. simpl. lia.
      * rewrite at_app_first by (simpl; lia). exact Hc.
      * apply at_app_lt. simpl. lia.
      * rewrite at_app_first by (simpl; lia). exact Hc.
Qed.

Lemma runesFrom_app_ascii (s : string) (c : byte) (t : string) :
  byteval c < 128 ->
  forall skip : nat,
    (skip <= String.length s)%nat ->
    runesFrom skip (s ++ String c t)
    = runesFrom skip s ++ byteval c :: runesFrom 0 t.
Proof.
  intros Hc.
  induction s as [|a s IH]; intros skip Hskip.
  - simpl in Hskip. assert (skip = O) by lia. subst skip.
    cbn [append app runesFrom]. rewrite Decode_ascii by exact Hc.
    reflexivity.
  - change ((String a s ++ String c t)%string)
      with (String a (s ++ String c t)).
    cbn [runesFrom].
    destruct skip as [|k].
    + change (String a (s ++ String c t))
        with ((String a s ++ String c t)%string).
      rewrite Decode_app_ascii by (discriminate || exact Hc).
      pose proof (Decode_size (String a s)) as Hsz.
      rewrite len_cons in Hsz. pose proof (len_nonneg s) as Hs.
      specialize (Hsz ltac:(lia)).
      destruct (utf8.DecodeRuneInString (String a s)) as [r size].
      cbn [snd] in Hsz.
      rewrite IH by (unfold len in Hsz; lia).
      reflexivity.
    + apply IH. simpl in Hskip. lia.
Qed.

Section Continuation.

(** The runes after the input: a rune that is no digit, then any. *)
Variables (r : rune) (m : list rune).
Hypothesis Hr : fmt.indexRune fmt.decimalDigits r = false.


Lemma getRune_more (s : fmt.ss) :
  more s ->
  exists x t, fmt.rs s = x :: t
              /\ fmt.getRune s = (x, fmt.advanced s t)
              /\ fmt.getRune (extend (r :: m) s)
                 = (x, extend (r :: m) (fmt.advanced s t)).
Proof.
  intros [Hc Hrs]. unfold fmt.getRune.
  cbn [extend fmt.count fmt.argLimit fmt.rs].
  rewrite geb_false by exact Hc.
  destruct (fmt.rs s) as [|x t]; [congruence|].
  exists x, t. repeat split.
Qed.

Lemma getRune_no_more (s : fmt.ss) :
  ~ more s -> fmt.getRune s = (fmt.eof, s).
Proof.
  intros Hn. unfold fmt.getRune.
  destruct (fmt.count s >=? fmt.argLimit s) eqn:Hc; [reflexivity|].
  destruct (fmt.rs s) as [|x t] eqn:Hrs; [reflexivity|].
  exfalso. apply Hn. split.
  - rewrite Z.geb_leb in Hc. apply Z.leb_gt in Hc. exact Hc.
  - rewrite Hrs. discriminate.
Qed.

Lemma more_dec (s : fmt.ss) : more s \/ ~ more s.
Proof.
  unfold more.
  destruct (Z.lt_ge_cases (fmt.count s) (fmt.argLimit s)) as [H|H];
    [|right; intros [H' _]; lia].
  destruct (fmt.rs s); [right; intros [_ H']; congruence|].
  left. split; [exact H | discriminate].
Qed.

(** [SkipSpace] that stops before a rune stops there too when more input
    follows, and a state without input is returned as it is. *)
Lemma SkipSpace_loop_extend (l : list rune) :
  forall s s',
    fmt.SkipSpace_loop l s = Ok s' -> more s' ->
    fmt.rs s = l ->
    fmt.SkipSpace_loop (l ++ (r :: m)) (extend (r :: m) s) = Ok (extend (r :: m) s')
    /\ more s.
Proof.
  induction l as [|x t IH]; intros s s' Hskip Hmore Hrs.
  - exfalso. cbn [fmt.SkipSpace_loop] in Hskip.
    assert (s' = s) by (destruct (fmt.count s >=? fmt.argLimit s);
                        now injection Hskip).
    subst s'. destruct Hmore as [_ H]. congruence.
  - cbn [fmt.SkipSpace_loop] in Hskip. cbn [app fmt.SkipSpace_loop].
    change (fmt.count (extend (r :: m) s)) with (fmt.count s).
    change (fmt.argLimit (extend (r :: m) s)) with (fmt.argLimit s).
    change (fmt.nlIsSpace (extend (r :: m) s)) with (fmt.nlIsSpace s).
    change (fmt.advanced (extend (r :: m) s) (t ++ (r :: m)))
      with (extend (r :: m) (fmt.advanced s t)).
    destruct (fmt.count s >=? fmt.argLimit s) eqn:Hc.
    { exfalso. injection Hskip as <-. destruct Hmore as [H _].
      rewrite Z.geb_leb in Hc. apply Z.leb_le in Hc. lia. }
    assert (Hms : more s).
    { split; [|rewrite Hrs; discriminate].
      rewrite Z.geb_leb in Hc. apply Z.leb_gt in Hc. exact Hc. }
    split; [|exact Hms].
    destruct (x =? 13) eqn:H13.
    + (* a carriage return is skipped with or without the newline *)
      apply Z.eqb_eq in H13. subst x.
      change (13 =? 10) with false in *.
      change (negb (fmt.isSpace 13)) with false in *.
      assert (Hrec : fmt.SkipSpace_loop t (fmt.advanced s t) = Ok s')
        by (destruct (true && fmt.peek [10] (fmt.advanced s t)); exact Hskip).
      destruct (IH _ _ Hrec Hmore eq_refl) as [Hext _].
      destruct (true && fmt.peek [10] (extend (r :: m) (fmt.advanced s t)));
        exact Hext.
    + cbn [andb] in *.
      destruct (x =? 10).
      * destruct (fmt.nlIsSpace s); [|discriminate Hskip].
        now destruct (IH _ _ Hskip Hmore eq_refl).
      * destruct (negb (fmt.isSpace x)).
        -- injection Hskip as <-. reflexivity.
        -- now destruct (IH _ _ Hskip Hmore eq_refl).
Qed.

Lemma accept_loop_extend (l : list rune) :
  forall s : fmt.ss,
    fmt.accept_loop fmt.decimalDigits (l ++ (r :: m)) (extend (r :: m) s)
    = extend (r :: m) (fmt.accept_loop fmt.decimalDigits l s).
Proof.
  induction l as [|x t IH]; intros s.
  - cbn [app fmt.accept_loop]. cbn [fmt.accept_loop]. rewrite Hr.
    change (fmt.count (extend (r :: m) s)) with (fmt.count s).
    change (fmt.argLimit (extend (r :: m) s)) with (fmt.argLimit s).
    destruct (fmt.count s >=? fmt.argLimit s); reflexivity.
  - cbn [app fmt.accept_loop].
    change (fmt.count (extend (r :: m) s)) with (fmt.count s).
    change (fmt.argLimit (extend (r :: m) s)) with (fmt.argLimit s).
    change (fmt.writeRune (fmt.advanced (extend (r :: m) s) (t ++ (r :: m))) x)
      with (extend (r :: m) (fmt.writeRune (fmt.advanced s t) x)).
    rewrite IH.
    destruct (fmt.count s >=? fmt.argLimit s); [reflexivity|].
    destruct (fmt.indexRune fmt.decimalDigits x); reflexivity.
Qed.

Lemma notEOF_extend (s s' : fmt.ss) :
  fmt.notEOF s = Ok s' ->
  s' = s /\ more s /\ fmt.notEOF (extend (r :: m) s) = Ok (extend (r :: m) s).
Proof.
  unfold fmt.notEOF. intros H.
  destruct (more_dec s) as [Hm|Hm].
  - destruct (getRune_more s Hm) as (x & t & _ & H1 & H2).
    rewrite H1 in H. rewrite H2.
    destruct (x =? fmt.eof); [discriminate H|].
    injection H as <-. split; [reflexivity|]. split; [exact Hm | reflexivity].
  - rewrite (getRune_no_more s Hm) in H. discriminate H.
Qed.

Lemma accept_extend (ok : list rune) (s : fmt.ss) :
  more s ->
  fmt.accept ok (extend (r :: m) s)
  = (fst (fmt.accept ok s), extend (r :: m) (snd (fmt.accept ok s))).
Proof.
  intros Hm. unfold fmt.accept.
  destruct (getRune_more s Hm) as (x & t & _ & H1 & H2).
  rewrite H1, H2.
  destruct (x =? fmt.eof); [reflexivity|].
  destruct (fmt.indexRune ok x); reflexivity.
Qed.

Lemma scanNumber_extend (s s' : fmt.ss) (tok : list rune) :
  fmt.scanNumber fmt.decimalDigits s = Ok (tok, s') ->
  fmt.scanNumber fmt.decimalDigits (extend (r :: m) s) = Ok (tok, extend (r :: m) s').
Proof.
  unfold fmt.scanNumber. intros H.
  destruct (fmt.notEOF s) as [s0|e] eqn:Hn; [|discriminate H].
  destruct (notEOF_extend s s0 Hn) as (-> & Hm & ->).
  cbn [bind] in *.
  rewrite (accept_extend fmt.decimalDigits s Hm).
  destruct (fmt.accept fmt.decimalDigits s) as [ok s1]. cbn [fst snd].
  destruct ok; cbn [negb] in *; [|discriminate H].
  injection H as <- <-.
  change (fmt.rs (extend (r :: m) s1)) with (fmt.rs s1 ++ (r :: m)).
  rewrite accept_loop_extend. reflexivity.
Qed.

Lemma scanInt_extend (bitSize : Z) (s : fmt.ss) :
  is_ok (fmt.scanInt bitSize s) = true ->
  is_ok (fmt.scanInt bitSize (extend (r :: m) s)) = true /\ more s.
Proof.
  unfold fmt.scanInt. intros H.
  destruct (fmt.SkipSpace s) as [s1|e] eqn:Hskip; [|discriminate H].
  cbn [bind] in H.
  destruct (fmt.notEOF s1) as [s2|e] eqn:Hn; [|discriminate H].
  destruct (notEOF_extend s1 s2 Hn) as (-> & Hm & Hn').
  cbn [bind] in H.
  destruct (SkipSpace_loop_extend (fmt.rs s) s s1 Hskip Hm eq_refl)
    as [Hskip' Hms].
  split; [|exact Hms].
  unfold fmt.SkipSpace.
  change (fmt.rs (extend (r :: m) s)) with (fmt.rs s ++ (r :: m)).
  rewrite Hskip'. cbn [bind]. rewrite Hn'. cbn [bind].
  rewrite (accept_extend fmt.sign s1 Hm).
  destruct (fmt.accept fmt.sign s1) as [b s3]. cbn [fst snd].
  destruct (fmt.scanNumber fmt.decimalDigits s3) as [[tok s4]|e] eqn:Hnum;
    [|discriminate H].
  rewrite (scanNumber_extend s3 s4 tok Hnum).
  cbn [bind] in *.
  destruct (strconv.ParseInt tok) as [i|e]; [|discriminate H].
  cbn [bind] in *.
  destruct (negb (_ =? i)); [discriminate H | reflexivity].
Qed.

Lemma SkipSpace_loop_fields (l : list rune) :
  forall s s',
    fmt.SkipSpace_loop l s = Ok s' ->
    fmt.argLimit s' = fmt.argLimit s /\ fmt.count s <= fmt.count s'.
Proof.
  induction l as [|x t IH]; intros s s' H; cbn [fmt.SkipSpace_loop] in H.
  - destruct (fmt.count s >=? fmt.argLimit s); injection H as <-; lia.
  - destruct (fmt.count s >=? fmt.argLimit s); [injection H as <-; lia|].
    assert (Hrec : fmt.SkipSpace_loop t (fmt.advanced s t) = Ok s' ->
                   fmt.argLimit s' = fmt.argLimit s
                   /\ fmt.count s <= fmt.count s').
    { intros Hrec. destruct (IH _ _ Hrec) as [Ha Hc].
      cbn [fmt.advanced fmt.argLimit fmt.count] in *. lia. }
    destruct ((x =? 13) && fmt.peek [10] (fmt.advanced s t)); [now apply Hrec|].
    destruct (x =? 10).
    + destruct (fmt.nlIsSpace s); [now apply Hrec | discriminate H].
    + destruct (negb (fmt.isSpace x)); [injection H as <-; lia | now apply Hrec].
Qed.

(** A successful scan stays successful when runes follow its input that
    do not begin with a digit. *)
Lemma Fscanf_v_int_extend (l : list rune) :
  is_ok (fmt.Fscanf_v_int l) = true ->
  is_ok (fmt.Fscanf_v_int (l ++ (r :: m))) = true.
Proof.
  unfold fmt.Fscanf_v_int.
  change (fmt.newScanState (l ++ (r :: m))) with (extend (r :: m) (fmt.newScanState l)).
  unfold fmt.advance_literal, fmt.mustReadRune.
  intros H.
  destruct (more_dec (fmt.newScanState l)) as [Hm|Hm].
  2:{ rewrite (getRune_no_more _ Hm) in H. discriminate H. }
  destruct (getRune_more _ Hm) as (x & t & Hl & H1 & H2).
  rewrite H1 in H. rewrite H2.
  destruct (x =? fmt.eof); [discriminate H|]. cbn [bind] in *.
  destruct (negb (118 =? x)); [discriminate H|]. cbn [bind] in *.
  set (s1 := fmt.advanced (fmt.newScanState l) t) in *.
  destruct (fmt.SkipSpace s1) as [s2|e] eqn:Hskip; [|discriminate H].
  cbn [bind] in H.
  destruct (fmt.scanInt fmt.intBits (fmt.clearBuf (fmt.setArgLimit s2)))
    as [[v s3]|e] eqn:Hint; [|discriminate H].
  destruct (scanInt_extend fmt.intBits (fmt.clearBuf (fmt.setArgLimit s2)))
    as [Hint' Hm2]; [now rewrite Hint|].
  destruct (SkipSpace_loop_fields _ _ _ Hskip) as [Harg Hcount].
  assert (Hm2' : more s2).
  { destruct Hm2 as [Hc Hrs]. split; [|exact Hrs].
    cbn [fmt.clearBuf fmt.setArgLimit fmt.count fmt.argLimit] in Hc.
    rewrite Harg. change (fmt.argLimit s1) with fmt.hugeWid.
    change (fmt.count s1) with 1 in Hcount.
    replace (fmt.count s2 + fmt.hugeWid <? fmt.hugeWid) with false in Hc
      by (symmetry; apply Z.ltb_ge; lia).
    exact Hc. }
  destruct (SkipSpace_loop_extend (fmt.rs s1) s1 s2 Hskip Hm2' eq_refl)
    as [Hskip' _].
  unfold fmt.SkipSpace.
  change (fmt.rs (extend (r :: m) s1)) with (fmt.rs s1 ++ (r :: m)).
  rewrite Hskip'. cbn [bind].
  change (fmt.clearBuf (fmt.setArgLimit (extend (r :: m) s2)))
    with (extend (r :: m) (fmt.clearBuf (fmt.setArgLimit s2))).
  destruct (fmt.scanInt fmt.intBits (extend (r :: m) _)) as [[v' s3']|e'];
    [reflexivity | discriminate Hint'].
Qed.

End Continuation.

Lemma not_digit_rune (c : byte) :
  isDigit c = false -> fmt.indexRune fmt.decimalDigits (byteval c) = false.
Proof.
  unfold isDigit, fmt.indexRune, fmt.decimalDigits. intros H.
  cbn [existsb].
  apply andb_false_iff in H.
  repeat (apply orb_false_intro; [apply Z.eqb_neq; intros Heq; rewrite Heq in H;
                                  destruct H; discriminate|]).
  reflexivity.
Qed.

(** X24: [isVNPart] looks at a prefix only: a version part stays a version
    part whatever is put after it, as long as that begins with an ASCII
    byte that is no digit. *)
Theorem isVNPart_prefix_match (p : string) (c : byte) (t : string) :
  isVNPart p = true ->
  byteval c < 128 -> isDigit c = false ->
  isVNPart (p ++ String c t) = true.
Proof.
  intros Hp Hc Hd. unfold isVNPart, NewReader in *.
  rewrite runesFrom_app_ascii by (exact Hc || lia).
  apply Fscanf_v_int_extend; [now apply not_digit_rune | exact Hp].
Qed.

Lemma isVNPart_prefix_match_witness :
  isVNPart ("v2" ++ String "r"%char "ay") = true.
Proof.
  apply (isVNPart_prefix_match "v2" "r"%char "ay");
    vm_compute; congruence.
Defined.

(** ** The further properties in the sample worlds *)

Lemma removeMajorVersionFromPath_any_position_witness :
  fst (removeMajorVersionFromPath
         (strings.Join (["example.com"; "org"] ++ "v6" :: ["pkg"]) "/"))
  = (strings.Join (["example.com"; "org"] ++ ["pkg"]) "/" ++ "")%string.
Proof.
  apply (removeMajorVersionFromPath_any_position
           ["example.com"; "org"] ["pkg"] "v6").
  - repeat constructor.
  - repeat constructor.
  - vm_compute. reflexivity.
  - vm_compute. reflexivity.
Defined.

Lemma removedCount_one_part_witness :
  snd (removeMajorVersionFromPath
         (strings.Join (["example.com"; "org"] ++ "v999" :: ["pkg"]) "/"))
  = len "v999" + 1 - 0.
Proof.
  apply (removedCount_one_part ["example.com"; "org"] ["pkg"] "v999").
  - repeat constructor.
  - repeat constructor.
  - discriminate.
  - vm_compute. reflexivity.
  - vm_compute. reflexivity.
  - vm_compute. discriminate.
Defined.

Lemma loadFileContents_holds_every_file_witness :
  let fpath := ["/go/src/p/a.go"; "/go/src/p/b.go"] in
  let m := [("/go/src/p/a.go", "/go/src/p/a.go");
            ("/go/src/p/b.go", "/go/src/p/b.go")] in
  (In "/go/src/p/b.go" fpath ->
   exists d, @ReadFile broken_env "/go/src/p/b.go" = Ok d
             /\ map_lookup m "/go/src/p/b.go" = Some d)
  /\ (~ In "/go/src/p/b.go" fpath -> map_lookup m "/go/src/p/b.go" = None).
Proof.
  cbv zeta.
  apply (@loadFileContents_holds_every_file broken_env
           ["/go/src/p/a.go"; "/go/src/p/b.go"] fresh_instance
           (snd (@loadFileContents broken_env
                   ["/go/src/p/a.go"; "/go/src/p/b.go"] [] fresh_instance))
           [("/go/src/p/a.go", "/go/src/p/a.go");
            ("/go/src/p/b.go", "/go/src/p/b.go")]).
  vm_compute. reflexivity.
Defined.

Lemma loadFileContents_reads_in_order_witness :
  trace (snd (@loadFileContents broken_env
                ["/go/src/p/a.go"; "/go/src/p/b.go"] [] fresh_instance))
  = rev (map EvReadFile ["/go/src/p/a.go"; "/go/src/p/b.go"])
    ++ trace fresh_instance.
Proof.
  apply (@loadFileContents_reads_in_order broken_env
           ["/go/src/p/a.go"; "/go/src/p/b.go"] [] fresh_instance
           (snd (@loadFileContents broken_env
                   ["/go/src/p/a.go"; "/go/src/p/b.go"] [] fresh_instance))
           [("/go/src/p/a.go", "/go/src/p/a.go");
            ("/go/src/p/b.go", "/go/src/p/b.go")]).
  vm_compute. reflexivity.
Defined.

Lemma loadFileContents_stops_at_first_error_witness :
  @loadFileContents broken_env
    (["/go/src/example.com/unreadable/a.go"]
     ++ "/go/src/example.com/unreadable/b.go"
     :: ["/go/src/example.com/unreadable/c.go"]) [] fresh_instance
  = (Err "permission denied",
     {| self := self fresh_instance;
        trace := rev (map EvReadFile
                        (["/go/src/example.com/unreadable/a.go"]
                         ++ ["/go/src/example.com/unreadable/b.go"]))
                 ++ trace fresh_instance |}).
Proof.
  apply (@loadFileContents_stops_at_first_error broken_env
           ["/go/src/example.com/unreadable/a.go"]
           ["/go/src/example.com/unreadable/c.go"]
           "/go/src/example.com/unreadable/b.go" "permission denied"
           [] fresh_instance).
  - repeat constructor.
  - vm_compute. reflexivity.
Defined.

Lemma loadPackageSources_keys_witness :
  exists goFiles,
    @ctx_Import broken_env (Ctx (self fresh_instance)) "example.com/ok"
      "/go/src/example.com/ok" = Ok goFiles
    /\ (forall f, In f goFiles ->
          exists d,
            @ReadFile broken_env
              (@filepath_Join broken_env ["/go/src/example.com/ok"; f]) = Ok d
            /\ map_lookup
                 [("/go/src/example.com/ok/a.go", "/go/src/example.com/ok/a.go");
                  ("/go/src/example.com/ok/b.go", "/go/src/example.com/ok/b.go");
                  ("/go/src/example.com/ok/c.go", "/go/src/example.com/ok/c.go")]
                 (@filepath_Join broken_env ["/go/src/example.com/ok"; f])
               = Some d)
    /\ (forall k d,
          map_lookup
            [("/go/src/example.com/ok/a.go", "/go/src/example.com/ok/a.go");
             ("/go/src/example.com/ok/b.go", "/go/src/example.com/ok/b.go");
             ("/go/src/example.com/ok/c.go", "/go/src/example.com/ok/c.go")]
            k = Some d ->
          exists f, In f goFiles
                    /\ k = @filepath_Join broken_env
                             ["/go/src/example.com/ok"; f]).
Proof.
  apply (@loadPackageSources_keys broken_env (Ctx (self fresh_instance))
           "example.com/ok" "/go/src/example.com/ok" fresh_instance
           (snd (@loadPackageSources broken_env (Ctx (self fresh_instance))
                   "example.com/ok" "/go/src/example.com/ok" fresh_instance))).
  vm_compute. reflexivity.
Defined.


Lemma parse_files_rewrites_imports_witness :
  Forall2
    (fun fs f =>
       exists astf,
         @ParseFile broken_env (fst fs) (snd fs) = Ok astf
         /\ Imports f
            = map (fun v => fst (removeMajorVersionFromPath v)) (Imports astf)
         /\ Decls f = Decls astf)
    [("/go/src/p/a.go", "package p")]
    [{| Imports := [(qs ++ "example.com/lib" ++ qs)%string]; Decls := tt |}].
Proof.
  apply (@parse_files_rewrites_imports broken_env
           [("/go/src/p/a.go", "package p")] fresh_instance
           (snd (@parse_files broken_env [("/go/src/p/a.go", "package p")] []
                   fresh_instance))).
  vm_compute. reflexivity.
Defined.

Lemma parse_files_leaves_no_version_part_witness :
  Forall
    (fun f : File unit =>
       Forall (fun v => Forall (fun p => isVNPart p = false)
                          (strings.Split v slash))
              (Imports f))
    [{| Imports := [(qs ++ "example.com/lib" ++ qs)%string]; Decls := tt |}].
Proof.
  apply (@parse_files_leaves_no_version_part broken_env
           [("/go/src/p/a.go", "package p")] fresh_instance
           (snd (@parse_files broken_env [("/go/src/p/a.go", "package p")] []
                   fresh_instance))).
  vm_compute. reflexivity.
Defined.

Lemma parse_files_stops_at_first_error_witness :
  let a := [("/go/src/example.com/unparsable/a.go", "package p")] in
  let b := [("/go/src/example.com/unparsable/c.go", "package p")] in
  let fpath := "/go/src/example.com/unparsable/b.go" in
  fst (@parse_files broken_env (a ++ (fpath, "pakage p") :: b) []
         fresh_instance)
  = Err "expected 'package'"
  /\ exists new,
       trace (snd (@parse_files broken_env (a ++ (fpath, "pakage p") :: b) []
                     fresh_instance))
       = new ++ trace fresh_instance
       /\ filter is_ParseFile new
          = rev (map (fun fs => EvParseFile (fst fs))
                   (a ++ [(fpath, "pakage p")])).
Proof.
  cbv zeta.
  apply (@parse_files_stops_at_first_error broken_env
           [("/go/src/example.com/unparsable/a.go", "package p")]
           [("/go/src/example.com/unparsable/c.go", "package p")]
           "/go/src/example.com/unparsable/b.go" "pakage p"
           "expected 'package'" [] fresh_instance).
  - repeat constructor.
  - vm_compute. reflexivity.
Defined.

Lemma Import_lists_sources_every_time_witness :
  exists new,
    trace (snd (@Import broken_env 1 "example.com/ok"
                  (snd (@Import broken_env 1 "example.com/ok" fresh_instance))))
    = new ++ trace (snd (@Import broken_env 1 "example.com/ok" fresh_instance))
    /\ In (EvCtxImport "example.com/ok"
             (@filepath_Join broken_env
                [GOPATH (Ctx (self (snd (@Import broken_env 1 "example.com/ok"
                                           fresh_instance))));
                 "src"; "example.com/ok"])) new.
Proof.
  apply (@Import_lists_sources_every_time broken_env 1 "example.com/ok"
           (snd (@Import broken_env 1 "example.com/ok" fresh_instance))
           "can't find import").
  vm_compute. reflexivity.
Defined.

Lemma Import_load_failure_witness :
  fst (@Import broken_env 1 "example.com/unreadable" fresh_instance)
  = Some (None, Some "permission denied")
  /\ exists new,
       trace (snd (@Import broken_env 1 "example.com/unreadable"
                     fresh_instance))
       = new ++ trace fresh_instance
       /\ existsb is_after_load new = false.
Proof.
  apply (@Import_load_failure broken_env 1 "example.com/unreadable"
           fresh_instance "can't find import" "permission denied").
  - vm_compute. reflexivity.
  - vm_compute. reflexivity.
Defined.

Lemma Import_parse_failure_witness :
  fst (@Import broken_env 1 "example.com/unparsable" fresh_instance)
  = Some (None, Some "expected 'package'")
  /\ exists new,
       trace (snd (@Import broken_env 1 "example.com/unparsable"
                     fresh_instance))
       = new ++ trace fresh_instance
       /\ existsb is_Check new = false.
Proof.
  apply (@Import_parse_failure broken_env 1 "example.com/unparsable"
           fresh_instance "can't find import" "expected 'package'"
           [("/go/src/example.com/unparsable/a.go",
             "/go/src/example.com/unparsable/a.go");
            ("/go/src/example.com/unparsable/b.go",
             "/go/src/example.com/unparsable/b.go");
            ("/go/src/example.com/unparsable/c.go",
             "/go/src/example.com/unparsable/c.go")]).
  - vm_compute. reflexivity.
  - vm_compute. reflexivity.
  - vm_compute. reflexivity.
Defined.
